(** * CertificateVerification: the certificate registry contract

    A shallow embedding of [contracts/CertificateVerification.sol], of the
    response shaping of [GET /api/certificates/verify/:hash], and of the
    issuing and listing endpoints with the service methods they call
    ([api/routes/certificates.js], [utils/blockchain.js]), followed by the
    properties of the registry (issuance, lookup, revocation, the owner
    guard, the id counter, the event log) and of the endpoints.

    Conventions of the embedding:
    - [uint256] and [address] values are [N]; Solidity 0.8 checks [+] and [-],
      so an operation that leaves [0 .. 2^256-1] reverts with [Panic 0x11];
    - [string] is [string]; [bytes(s).length] is [String.length s];
    - a [mapping] is a [gmap] read with the zero value as default;
    - a function body is a computation over the contract storage which either
      returns or reverts; the storage reached at the point of a revert is
      kept in the result so that "which writes happened before the revert"
      can be stated, and [call] discards it as the EVM does. *)

From Stdlib Require Import NArith Lia.
From stdpp Require Import gmap strings list pretty.

Local Open Scope N_scope.

(** ** Solidity values and checked arithmetic *)

Module Solidity.

Definition MAX_UINT256 : N := 2 ^ 256 - 1.

(** [require(cond, reason)] reverts with [Error reason]; a failed
    arithmetic check reverts with [Panic code]. *)
Inductive Revert : Type :=
| Error (reason : string)
| Panic (code : N).

Definition ARITHMETIC_PANIC : N := 17. (* 0x11 *)

Definition checked_add (a b : N) : option N :=
  if a + b <=? MAX_UINT256 then Some (a + b) else None.

Definition checked_sub (a b : N) : option N :=
  if b <=? a then Some (a - b) else None.

End Solidity.
Import Solidity.

(** ** Storage of the contract *)

(** [struct Certificate] *)
Record Certificate : Type := mkCertificate {
  participantName : string;
  eventName : string;
  certificateHash : string;
  timestamp : N;
  isValid : bool
}.

(** The value a mapping returns for a key that was never written. *)
Definition zeroCertificate : Certificate :=
  mkCertificate "" "" "" 0 false.

Inductive Event : Type :=
| CertificateIssued (certificateId : N) (participantName eventName certificateHash : string)
| CertificateRevoked (certificateId : N).

Record State : Type := mkState {
  certificates : gmap N Certificate;
  hashToCertificateId : gmap string N;
  nextCertificateId : N;
  owner : N;
  events : list Event
}.

(** [certificates[id]] and [hashToCertificateId[h]] as Solidity reads them. *)
Definition certificateAt (st : State) (id : N) : Certificate :=
  default zeroCertificate (certificates st !! id).

Definition idOfHash (st : State) (h : string) : N :=
  default 0 (hashToCertificateId st !! h).

(** [msg.sender] and [block.timestamp] of a call. *)
Record Msg : Type := mkMsg {
  sender : N;
  block_timestamp : N
}.

(** [constructor()]: [nextCertificateId = 1], [owner = msg.sender]. *)
Definition constructor (msg : Msg) : State :=
  mkState ∅ ∅ 1 (sender msg) [].

(** ** Computations that return or revert *)

Inductive Result (A : Type) : Type :=
| Returned (a : A) (st : State)
| Reverted (r : Revert) (st : State).
Arguments Returned {A} a st.
Arguments Reverted {A} r st.

Definition M (A : Type) : Type := State -> Result A.

Definition ret {A} (a : A) : M A := fun st => Returned a st.

Definition bind {A B} (m : M A) (k : A -> M B) : M B :=
  fun st =>
    match m st with
    | Returned a st' => k a st'
    | Reverted r st' => Reverted r st'
    end.

Notation "'let*' x ':=' m 'in' k" := (bind m (fun x => k))
  (at level 10, x name, m at level 100, k at level 200).
Notation "m ';;' k" := (bind m (fun _ => k))
  (at level 100, k at level 200, right associativity).

Definition revert {A} (r : Revert) : M A := fun st => Reverted r st.

Definition require (cond : bool) (reason : string) : M unit :=
  if cond then ret tt else revert (Error reason).

Definition gets {A} (f : State -> A) : M A := fun st => Returned (f st) st.

Definition modify (f : State -> State) : M unit := fun st => Returned tt (f st).

Definition checked (o : option N) : M N :=
  match o with
  | Some n => ret n
  | None => revert (Panic ARITHMETIC_PANIC)
  end.

Definition emit (e : Event) : M unit :=
  modify (fun st =>
    mkState (certificates st) (hashToCertificateId st) (nextCertificateId st)
            (owner st) (events st ++ [e])).

Definition set_certificate (id : N) (c : Certificate) : M unit :=
  modify (fun st =>
    mkState (<[id := c]> (certificates st)) (hashToCertificateId st)
            (nextCertificateId st) (owner st) (events st)).

Definition set_hashToCertificateId (h : string) (id : N) : M unit :=
  modify (fun st =>
    mkState (certificates st) (<[h := id]> (hashToCertificateId st))
            (nextCertificateId st) (owner st) (events st)).

Definition set_nextCertificateId (n : N) : M unit :=
  modify (fun st =>
    mkState (certificates st) (hashToCertificateId st) n (owner st) (events st)).

(** ** The contract's functions *)

(** [modifier onlyOwner] *)
Definition onlyOwner (msg : Msg) : M unit :=
  let* o := gets owner in
  require (sender msg =? o) "Only owner can call this function".

Definition nonempty (s : string) : bool := (0 <? String.length s)%nat.

Definition issueCertificate (msg : Msg)
    (_participantName _eventName _certificateHash : string) : M N :=
  onlyOwner msg ;;
  require (nonempty _participantName) "Participant name cannot be empty" ;;
  require (nonempty _eventName) "Event name cannot be empty" ;;
  require (nonempty _certificateHash) "Certificate hash cannot be empty" ;;
  let* known := gets (fun st => idOfHash st _certificateHash) in
  require (known =? 0) "Certificate with this hash already exists" ;;
  let* certificateId := gets nextCertificateId in
  set_certificate certificateId
    (mkCertificate _participantName _eventName _certificateHash
                   (block_timestamp msg) true) ;;
  set_hashToCertificateId _certificateHash certificateId ;;
  let* n := gets nextCertificateId in
  let* n' := checked (checked_add n 1) in
  set_nextCertificateId n' ;;
  emit (CertificateIssued certificateId _participantName _eventName _certificateHash) ;;
  ret certificateId.

(** Return tuple of [verifyCertificateByHash]:
    [(exists, certificateId, participantName, eventName, timestamp, isValid)]. *)
Record ByHash : Type := mkByHash {
  bh_exists : bool;
  bh_certificateId : N;
  bh_participantName : string;
  bh_eventName : string;
  bh_timestamp : N;
  bh_isValid : bool
}.

Definition verifyCertificateByHash (_certificateHash : string) : M ByHash :=
  let* certificateId := gets (fun st => idOfHash st _certificateHash) in
  if certificateId =? 0 then
    ret (mkByHash false 0 "" "" 0 false)
  else
    let* cert := gets (fun st => certificateAt st certificateId) in
    ret (mkByHash true certificateId (participantName cert) (eventName cert)
                  (timestamp cert) (isValid cert)).

(** Return tuple of [verifyCertificateById]:
    [(exists, participantName, eventName, certificateHash, timestamp, isValid)]. *)
Record ById : Type := mkById {
  bi_exists : bool;
  bi_participantName : string;
  bi_eventName : string;
  bi_certificateHash : string;
  bi_timestamp : N;
  bi_isValid : bool
}.

Definition verifyCertificateById (_certificateId : N) : M ById :=
  let* next := gets nextCertificateId in
  if (_certificateId =? 0) || (next <=? _certificateId) then
    ret (mkById false "" "" "" 0 false)
  else
    let* cert := gets (fun st => certificateAt st _certificateId) in
    ret (mkById true (participantName cert) (eventName cert)
                (certificateHash cert) (timestamp cert) (isValid cert)).

Definition revokeCertificate (msg : Msg) (_certificateId : N) : M unit :=
  onlyOwner msg ;;
  let* next := gets nextCertificateId in
  require ((0 <? _certificateId) && (_certificateId <? next))
          "Invalid certificate ID" ;;
  let* cert := gets (fun st => certificateAt st _certificateId) in
  require (isValid cert) "Certificate is already revoked" ;;
  (* certificates[_certificateId].isValid = false *)
  let* cert := gets (fun st => certificateAt st _certificateId) in
  set_certificate _certificateId
    (mkCertificate (participantName cert) (eventName cert)
                   (certificateHash cert) (timestamp cert) false) ;;
  emit (CertificateRevoked _certificateId).

Definition getTotalCertificates : M N :=
  let* next := gets nextCertificateId in
  checked (checked_sub next 1).

(** ** Calls: the EVM keeps the writes of a call that returns and discards
    those of a call that reverts *)

Definition call {A} (m : M A) (st : State) : State * (Revert + A) :=
  match m st with
  | Returned a st' => (st', inr a)
  | Reverted r _ => (st, inl r)
  end.

(** The contract's external functions. The getters Solidity generates for
    the [public] state variables are plain reads ([certificateAt],
    [idOfHash], [nextCertificateId], [owner]) and write nothing. *)
Inductive Call : Type :=
| IssueCertificate (_participantName _eventName _certificateHash : string)
| VerifyCertificateByHash (_certificateHash : string)
| VerifyCertificateById (_certificateId : N)
| RevokeCertificate (_certificateId : N)
| GetTotalCertificates.

Inductive Value : Type :=
| VId (certificateId : N)
| VByHash (r : ByHash)
| VById (r : ById)
| VUnit
| VTotal (n : N).

Definition dispatch (msg : Msg) (c : Call) : M Value :=
  match c with
  | IssueCertificate p e h => let* id := issueCertificate msg p e h in ret (VId id)
  | VerifyCertificateByHash h => let* r := verifyCertificateByHash h in ret (VByHash r)
  | VerifyCertificateById id => let* r := verifyCertificateById id in ret (VById r)
  | RevokeCertificate id => revokeCertificate msg id ;; ret VUnit
  | GetTotalCertificates => let* n := getTotalCertificates in ret (VTotal n)
  end.

Definition Tx : Type := Msg * Call.

Definition transact (st : State) (tx : Tx) : State * (Revert + Value) :=
  call (dispatch (fst tx) (snd tx)) st.

Definition step (st : State) (tx : Tx) : State := fst (transact st tx).

(** The storage after a sequence of transactions, oldest first. *)
Definition run (st : State) (txs : list Tx) : State := fold_left step txs st.

(** The ids returned by the issuances that went through, oldest first. *)
Fixpoint issuedIds (st : State) (txs : list Tx) : list N :=
  match txs with
  | [] => []
  | tx :: txs' =>
      match transact st tx with
      | (st', inr (VId id)) => id :: issuedIds st' txs'
      | (st', _) => issuedIds st' txs'
      end
  end.

(** The hashes registered by the issuances that went through, oldest first. *)
Fixpoint issuedHashes (st : State) (txs : list Tx) : list string :=
  match txs with
  | [] => []
  | tx :: txs' =>
      match transact st tx, snd tx with
      | (st', inr (VId _)), IssueCertificate _ _ h => h :: issuedHashes st' txs'
      | (st', _), _ => issuedHashes st' txs'
      end
  end.

(** A storage is reachable when some deployment followed by some sequence of
    transactions produces it. *)
Inductive reachable : State -> Prop :=
| reachable_deploy (msg : Msg) : reachable (constructor msg)
| reachable_step (st : State) (tx : Tx) : reachable st -> reachable (step st tx).

(** ** Error kinds of the registry interface

    The contract reports a failure by its revert reason; the registry
    interface names the kinds. *)
Inductive ErrorKind : Type :=
| ValidationError
| DuplicateHashError
| NotFoundError
| AlreadyRevokedError
| UnauthorizedError
| ArithmeticError.

Definition errorKind (r : Revert) : option ErrorKind :=
  match r with
  | Panic _ => Some ArithmeticError
  | Error reason =>
      if String.eqb reason "Only owner can call this function" then Some UnauthorizedError
      else if String.eqb reason "Participant name cannot be empty" then Some ValidationError
      else if String.eqb reason "Event name cannot be empty" then Some ValidationError
      else if String.eqb reason "Certificate hash cannot be empty" then Some ValidationError
      else if String.eqb reason "Certificate with this hash already exists" then Some DuplicateHashError
      else if String.eqb reason "Invalid certificate ID" then Some NotFoundError
      else if String.eqb reason "Certificate is already revoked" then Some AlreadyRevokedError
      else None
  end.

(** [call] failed with an error of kind [k]. *)
Definition failsWith {A} (out : State * (Revert + A)) (k : ErrorKind) : Prop :=
  match snd out with
  | inl r => errorKind r = Some k
  | inr _ => False
  end.

(** ** The verification endpoint

    [GET /api/certificates/verify/:hash] chooses the message of a successful
    answer from [result.exists] and [result.isValid]. *)
Definition verifyMessage (exists_ isValid_ : bool) : string :=
  if exists_ then
    (if isValid_ then "Certificate is valid and verified"
     else "Certificate exists but has been revoked")
  else "Certificate not found".

(** ** A worked run *)

Definition alice : Msg := mkMsg 7 1700000000.
Definition mallory : Msg := mkMsg 8 1700000100.

Definition demo : list Tx :=
  [ (alice, IssueCertificate "Alice" "Contest2024" "aaa111");
    (alice, RevokeCertificate 1) ].

(** A second run: two certificates, none revoked. *)
Definition twoIssued : State :=
  run (constructor alice)
      [ (alice, IssueCertificate "Alice" "Contest2024" "aaa111");
        (alice, IssueCertificate "Bob" "Contest2024" "bbb222") ].

(** * Notions used to state the properties *)

(** The storage after an issuance that went through. *)
Definition issue_post (msg : Msg) (p e h : string) (st : State) : State :=
  mkState
    (<[nextCertificateId st := mkCertificate p e h (block_timestamp msg) true]>
       (certificates st))
    (<[h := nextCertificateId st]> (hashToCertificateId st))
    (nextCertificateId st + 1) (owner st)
    (events st ++ [CertificateIssued (nextCertificateId st) p e h]).

(** The storage after a revocation that went through. *)
Definition revoke_post (id : N) (st : State) : State :=
  mkState
    (<[id := mkCertificate (participantName (certificateAt st id))
                           (eventName (certificateAt st id))
                           (certificateHash (certificateAt st id))
                           (timestamp (certificateAt st id)) false]>
       (certificates st))
    (hashToCertificateId st) (nextCertificateId st) (owner st)
    (events st ++ [CertificateRevoked id]).

(** The outcomes of [issueCertificate], in the order the body checks them. *)
Inductive IssueOutcome (msg : Msg) (p e h : string) (st : State) : Result N -> Prop :=
| issue_not_owner :
    sender msg <> owner st ->
    IssueOutcome msg p e h st (Reverted (Error "Only owner can call this function") st)
| issue_no_participant :
    sender msg = owner st -> p = "" ->
    IssueOutcome msg p e h st (Reverted (Error "Participant name cannot be empty") st)
| issue_no_event :
    sender msg = owner st -> p <> "" -> e = "" ->
    IssueOutcome msg p e h st (Reverted (Error "Event name cannot be empty") st)
| issue_no_hash :
    sender msg = owner st -> p <> "" -> e <> "" -> h = "" ->
    IssueOutcome msg p e h st (Reverted (Error "Certificate hash cannot be empty") st)
| issue_duplicate :
    sender msg = owner st -> p <> "" -> e <> "" -> h <> "" ->
    idOfHash st h <> 0 ->
    IssueOutcome msg p e h st
      (Reverted (Error "Certificate with this hash already exists") st)
| issue_overflow st' :
    sender msg = owner st -> p <> "" -> e <> "" -> h <> "" ->
    idOfHash st h = 0 -> MAX_UINT256 <= nextCertificateId st ->
    IssueOutcome msg p e h st (Reverted (Panic ARITHMETIC_PANIC) st')
| issue_ok :
    sender msg = owner st -> p <> "" -> e <> "" -> h <> "" ->
    idOfHash st h = 0 -> nextCertificateId st < MAX_UINT256 ->
    IssueOutcome msg p e h st
      (Returned (nextCertificateId st) (issue_post msg p e h st)).

(** The outcomes of [revokeCertificate], in the order the body checks them. *)
Inductive RevokeOutcome (msg : Msg) (id : N) (st : State) : Result unit -> Prop :=
| revoke_not_owner :
    sender msg <> owner st ->
    RevokeOutcome msg id st (Reverted (Error "Only owner can call this function") st)
| revoke_out_of_range :
    sender msg = owner st -> ~ (0 < id < nextCertificateId st) ->
    RevokeOutcome msg id st (Reverted (Error "Invalid certificate ID") st)
| revoke_already :
    sender msg = owner st -> 0 < id < nextCertificateId st ->
    isValid (certificateAt st id) = false ->
    RevokeOutcome msg id st (Reverted (Error "Certificate is already revoked") st)
| revoke_ok :
    sender msg = owner st -> 0 < id < nextCertificateId st ->
    isValid (certificateAt st id) = true ->
    RevokeOutcome msg id st (Returned tt (revoke_post id st)).

(** Only two things change the storage: an issuance that goes through and a
    revocation that goes through. *)
Inductive Effect (st : State) (tx : Tx) : State * (Revert + Value) -> Prop :=
| effect_issue p e h :
    snd tx = IssueCertificate p e h ->
    sender (fst tx) = owner st -> p <> "" -> e <> "" -> h <> "" ->
    idOfHash st h = 0 -> nextCertificateId st < MAX_UINT256 ->
    Effect st tx (issue_post (fst tx) p e h st, inr (VId (nextCertificateId st)))
| effect_revoke id :
    snd tx = RevokeCertificate id ->
    sender (fst tx) = owner st -> 0 < id < nextCertificateId st ->
    isValid (certificateAt st id) = true ->
    Effect st tx (revoke_post id st, inr VUnit)
| effect_none out :
    (forall id, out <> inr (VId id)) ->
    Effect st tx (st, out).

(** What holds of every reachable storage: the counter is at least 1 and
    fits a [uint256]; the index points below the counter, at a record that
    carries the indexed hash; every record below the counter is indexed under
    its hash and has non-empty fields. *)
Record Inv (st : State) : Prop := mkInv {
  inv_next : 1 <= nextCertificateId st <= MAX_UINT256;
  inv_index_range : forall h, idOfHash st h < nextCertificateId st;
  inv_index_hash : forall h,
    idOfHash st h <> 0 -> certificateHash (certificateAt st (idOfHash st h)) = h;
  inv_record_index : forall id,
    0 < id < nextCertificateId st ->
    idOfHash st (certificateHash (certificateAt st id)) = id;
  inv_record_fields : forall id,
    0 < id < nextCertificateId st ->
    participantName (certificateAt st id) <> "" /\
    eventName (certificateAt st id) <> "" /\
    certificateHash (certificateAt st id) <> ""
}.

(** The counter moves by one on an issuance that goes through and stays put
    otherwise. *)
Definition issuance (out : Revert + Value) : bool :=
  match out with
  | inr (VId _) => true
  | _ => false
  end.

(** Two readings of a record that agree on everything but [isValid]. *)
Definition sameContents (c c' : Certificate) : Prop :=
  participantName c' = participantName c /\
  eventName c' = eventName c /\
  certificateHash c' = certificateHash c /\
  timestamp c' = timestamp c.

(** Counting from [a]: [a; a+1; ...; a+n-1]. *)
Definition countFrom (a : N) (n : nat) : list N :=
  map (fun k => a + N.of_nat k) (seq 0 n).

(** A run that uses up the counter: issuance number [k] registers the hash
    made of [k+1] letters [a]. *)
Fixpoint hashNo (k : nat) : string :=
  match k with
  | O => "a"
  | S k' => String.append "a" (hashNo k')
  end.

Definition filler (k : nat) : Tx := (alice, IssueCertificate "Alice" "Contest2024" (hashNo k)).

Definition fillers (n : nat) : list Tx := map filler (seq 0 n).

(** The storage after [2^256 - 2] issuances. *)
Definition exhausted : State :=
  run (constructor alice) (fillers (N.to_nat (MAX_UINT256 - 1))).


(** The number of [issueCertificate] calls of a run that went through. *)
Fixpoint successfulIssues (st : State) (txs : list Tx) : nat :=
  match txs with
  | [] => 0
  | tx :: txs' =>
      match snd tx, snd (transact st tx) with
      | IssueCertificate _ _ _, inr _ => S (successfulIssues (step st tx) txs')
      | _, _ => successfulIssues (step st tx) txs'
      end
  end.

(** * The event log *)

(** The [CertificateIssued] entries of the log, oldest first. *)
Definition issuedLog (st : State) : list (N * string * string * string) :=
  omap (fun ev => match ev with
                  | CertificateIssued id p e h => Some (id, p, e, h)
                  | CertificateRevoked _ => None
                  end) (events st).

(** The ids of the [CertificateRevoked] entries of the log, oldest first. *)
Definition revokedLog (st : State) : list N :=
  omap (fun ev => match ev with
                  | CertificateRevoked id => Some id
                  | CertificateIssued _ _ _ _ => None
                  end) (events st).

(** What [certificates[id]] says of a record, as a log entry. *)
Definition logEntry (st : State) (id : N) : N * string * string * string :=
  (id, participantName (certificateAt st id), eventName (certificateAt st id),
   certificateHash (certificateAt st id)).

(** The ids below the counter whose record is still valid. *)
Definition validIds (st : State) : list N :=
  filter (fun id => isValid (certificateAt st id) = true)
         (countFrom 1 (N.to_nat (nextCertificateId st - 1))).

(** * The service and the endpoints

    [BlockchainService] (utils/blockchain.js) and the routes
    [POST /api/certificates/issue], [GET /api/certificates/verify/:hash] and
    [GET /api/certificates/list] (routes/certificates.js), with the
    middleware in front of them: [checkBlockchainService], multer's
    [upload.single] and the error middleware of server.js. The chain is the
    contract storage above and one request runs at a time. What the network
    answers to a request to send a transaction is an input: it refuses (a
    failed gas estimate, no funds) before anything is sent, or it mines the
    transaction. A read-only call is answered with what the contract
    returns. *)

(** JSON values, as the responses carry them. *)
Local Unset Elimination Schemes.
Inductive Json : Type :=
| JNull
| JBool (b : bool)
| JNumber (n : N)
| JString (s : string)
| JArray (items : list Json)
| JObject (fields : list (string * Json)).
Local Set Elimination Schemes.

(** [j.k] for an object [j]. *)
Definition jfield (k : string) (j : Json) : option Json :=
  match j with
  | JObject fields => snd <$> find (fun kv => String.eqb (fst kv) k) fields
  | _ => None
  end.

Record Response : Type := mkResponse {
  status : N;
  body : Json
}.

(** A field of [req.body] as multer leaves it: absent, a string, or an
    array or object (a repeated or bracketed field name). *)
Inductive FormValue : Type :=
| Undefined
| Str (s : string)
| Composite (value : Json).

(** [!v] is false. Arrays and objects are truthy. *)
Definition truthy (v : FormValue) : bool :=
  match v with
  | Undefined => false
  | Str s => nonempty s
  | Composite _ => true
  end.

(** The value as [res.json] writes it. *)
Definition jsonOf (v : FormValue) : Json :=
  match v with
  | Undefined => JNull
  | Str s => JString s
  | Composite value => value
  end.

(** An exception as the [catch] blocks read it. *)
Record Exception : Type := mkException {
  ex_reason : option string;        (* error.reason *)
  ex_dataMessage : option string;   (* error.data.message *)
  ex_message : string               (* error.message *)
}.

(** What the JavaScript runtime and the libraries contribute. *)
Record Runtime : Type := mkRuntime {
  (* crypto.createHash('sha256').update(buffer).digest('hex') *)
  generateFileHash : string -> string;
  (* error.reason of a call that failed an arithmetic check *)
  panicReason : N -> string;
  (* error.data.message of a reverted call, when there is one *)
  dataMessage : Revert -> option string;
  (* error.message of a reverted call *)
  errorText : Revert -> string;
  (* error.message of fs.readFile on a path that is not there *)
  readError : string -> string;
  (* error.message of ethers for a string argument that is no string; the
     text quotes the value *)
  invalidStringMessage : FormValue -> string;
  (* toISOString() of a date in range, the date given in seconds *)
  isoString : N -> string;
  (* error.message of the RangeError toISOString() throws *)
  invalidTimeMessage : string
}.

(** What the network answers to the request to send the transaction: a
    refusal, or the block that mined it. *)
Record Mined : Type := mkMined {
  block_time : N;
  tx_hash : string;
  block_number : N;
  gas_used : N;
  refusal : option Exception
}.

(** An optional text is there and not empty. *)
Definition given (v : option string) : bool :=
  match v with
  | Some s => nonempty s
  | None => false
  end.

(** The [catch] block of [issueCertificate]: [error.reason] when it is not
    empty, else [error.data.message] when it is not empty, else
    [error.message]. *)
Definition caughtMessage (ex : Exception) : string :=
  if given (ex_reason ex) then default "" (ex_reason ex)
  else if given (ex_dataMessage ex) then default "" (ex_dataMessage ex)
  else ex_message ex.

(** The exception ethers raises for a call that reverted. *)
Definition revertException (rt : Runtime) (r : Revert) : Exception :=
  mkException (Some match r with
                    | Error reason => reason
                    | Panic code => panicReason rt code
                    end)
              (dataMessage rt r) (errorText rt r).

Definition errorMessage (rt : Runtime) (r : Revert) : string :=
  caughtMessage (revertException rt r).

(** The result object of [BlockchainService.issueCertificate]. *)
Inductive IssueResult : Type :=
| IssueSucceeded (certificateId : option string) (transactionHash : string)
    (blockNumber : N) (gasUsed : string)
| IssueFailed (error : string).

(** [receipt.logs]: what the transaction appended to the log. *)
Definition receiptLogs (before after : State) : list Event :=
  drop (length (events before)) (events after).

(** [receipt.logs.find(log => parsed.name === 'CertificateIssued')], then
    [parsed.args.certificateId.toString()]. *)
Definition parsedCertificateId (logs : list Event) : option string :=
  match find (fun ev => match ev with
                        | CertificateIssued _ _ _ _ => true
                        | CertificateRevoked _ => false
                        end) logs with
  | Some (CertificateIssued id _ _ _) => Some (pretty id)
  | _ => None
  end.

(** [BlockchainService.issueCertificate]. Encoding the arguments comes
    first and throws for a name that is no string; then the gas estimate and
    the transaction, which the network refuses or which run the contract. *)
Definition BlockchainService_issueCertificate (rt : Runtime) (wallet : N) (net : Mined)
    (participantName eventName : FormValue) (certificateHash : string) (st : State)
  : State * IssueResult :=
  match participantName, eventName with
  | Str p, Str e =>
      match refusal net with
      | Some ex => (st, IssueFailed (caughtMessage ex))
      | None =>
          match call (issueCertificate (mkMsg wallet (block_time net))
                                       p e certificateHash) st with
          | (st', inr _) =>
              (st', IssueSucceeded (parsedCertificateId (receiptLogs st st'))
                                   (tx_hash net) (block_number net)
                                   (pretty (gas_used net)))
          | (st', inl r) => (st', IssueFailed (errorMessage rt r))
          end
      end
  | Str _, v | v, _ =>
      (st, IssueFailed (caughtMessage (mkException None None (invalidStringMessage rt v))))
  end.

(** [req.file] as multer leaves it. *)
Record File : Type := mkFile {
  file_path : string;
  file_filename : string;
  file_originalname : string;
  file_size : N
}.

(** What [upload.single('certificate')] did with the request: it refused it
    (the file filter or the size limit) and nothing is stored, or it went on
    with the file it stored, if the request had one. *)
Inductive Upload : Type :=
| UploadRefused (message : string)
| Uploaded (file : option File).

Record IssueRequest : Type := mkIssueRequest {
  req_participantName : FormValue;   (* req.body.participantName *)
  req_eventName : FormValue;         (* req.body.eventName *)
  req_upload : Upload;
  req_protocol : string;
  req_host : string
}.

(** The chain and the uploads directory (path to content). *)
Record World : Type := mkWorld {
  chain : State;
  uploads : gmap string string
}.

(** [fs.remove(path)] *)
Definition fs_remove (path : string) (w : World) : World :=
  mkWorld (chain w) (delete path (uploads w)).

(** [router.post('/issue', checkBlockchainService, upload.single('certificate'), ...)]
    with the error middleware of server.js behind it; [service] is the
    wallet address of the service when it was initialized. *)
Definition postIssue (rt : Runtime) (service : option N) (net : Mined)
    (req : IssueRequest) (w : World) : World * Response :=
  match service with
  | None =>
      (w, mkResponse 500
            (JObject [("error", JString "Blockchain service not initialized");
                      ("message", JString "Please check your environment configuration")]))
  | Some wallet =>
      match req_upload req with
      | UploadRefused message =>
          (* next(err): app.use((err, req, res, next) => ...) *)
          (w, mkResponse 500
                (JObject [("error", JString "Internal server error");
                          ("message", JString message)]))
      | Uploaded req_file =>
          if negb (truthy (req_participantName req))
             || negb (truthy (req_eventName req)) then
            (w, mkResponse 400
                  (JObject [("error", JString "Missing required fields");
                            ("message",
                             JString "participantName and eventName are required")]))
          else
            match req_file with
            | None =>
                (w, mkResponse 400
                      (JObject [("error", JString "No file uploaded");
                                ("message", JString "Please upload a certificate file")]))
            | Some file =>
                match uploads w !! file_path file with
                | None =>
                    (* fs.readFile throws: the catch block cleans up *)
                    (fs_remove (file_path file) w,
                     mkResponse 500
                       (JObject [("error", JString "Internal server error");
                                 ("message", JString (readError rt (file_path file)))]))
                | Some fileBuffer =>
                    let certificateHash := generateFileHash rt fileBuffer in
                    match BlockchainService_issueCertificate rt wallet net
                            (req_participantName req) (req_eventName req)
                            certificateHash (chain w) with
                    | (st', IssueSucceeded certificateId transactionHash blockNumber gasUsed) =>
                        (mkWorld st' (uploads w),
                         mkResponse 200
                           (JObject
                              [("success", JBool true);
                               ("message", JString "Certificate issued successfully");
                               ("data",
                                JObject
                                  [("certificateId",
                                    match certificateId with
                                    | Some id => JString id
                                    | None => JNull
                                    end);
                                   ("participantName", jsonOf (req_participantName req));
                                   ("eventName", jsonOf (req_eventName req));
                                   ("certificateHash", JString certificateHash);
                                   ("fileName", JString (file_filename file));
                                   ("originalName", JString (file_originalname file));
                                   ("fileSize", JNumber (file_size file));
                                   ("transactionHash", JString transactionHash);
                                   ("blockNumber", JNumber blockNumber);
                                   ("gasUsed", JString gasUsed);
                                   ("verificationUrl",
                                    JString (req_protocol req +:+ "://" +:+ req_host req
                                             +:+ "/api/certificates/verify/"
                                             +:+ certificateHash))])]))
                    | (st', IssueFailed error) =>
                        (fs_remove (file_path file) (mkWorld st' (uploads w)),
                         mkResponse 500
                           (JObject
                              [("success", JBool false);
                               ("error",
                                JString "Failed to issue certificate on blockchain");
                               ("message", JString error)]))
                    end
                end
            end
      end
  end.




(** The largest time, in seconds, that [new Date(Number(t) * 1000)] holds:
    a [Date] covers 8.64e15 ms either side of the epoch. Beyond it the date
    is invalid and [toISOString()] throws a [RangeError]. *)
Definition MAX_DATE_SECONDS : N := 8640000000000.

(** [new Date(Number(seconds) * 1000).toISOString()]; [None] when it throws. *)
Definition toISOString (rt : Runtime) (seconds : N) : option string :=
  if seconds <=? MAX_DATE_SECONDS then Some (isoString rt seconds) else None.

(** The result object of [BlockchainService.verifyCertificateByHash]. *)
Inductive VerifyResult : Type :=
| VerifySucceeded (exists_ : bool) (certificateId : option string)
    (participantName eventName : string) (timestamp : option string) (isValid : bool)
| VerifyFailed (error : string).

Definition BlockchainService_verifyCertificateByHash (rt : Runtime)
    (certificateHash : string) (st : State) : VerifyResult :=
  match call (verifyCertificateByHash certificateHash) st with
  | (_, inr result) =>
      if bh_exists result then
        match toISOString rt (bh_timestamp result) with
        | Some timestamp =>
            VerifySucceeded true (Some (pretty (bh_certificateId result)))
                            (bh_participantName result) (bh_eventName result)
                            (Some timestamp) (bh_isValid result)
        | None => VerifyFailed (invalidTimeMessage rt)
        end
      else
        VerifySucceeded false None (bh_participantName result) (bh_eventName result)
                        None (bh_isValid result)
  | (_, inl r) => VerifyFailed (errorText rt r)
  end.

(** [router.get('/verify/:hash', checkBlockchainService, ...)] *)
Definition getVerify (rt : Runtime) (service : option N) (hash : string) (st : State)
  : Response :=
  match service with
  | None =>
      mkResponse 500
        (JObject [("error", JString "Blockchain service not initialized");
                  ("message", JString "Please check your environment configuration")])
  | Some _ =>
      if negb (nonempty hash) then
        mkResponse 400 (JObject [("error", JString "Hash parameter is required")])
      else
        match BlockchainService_verifyCertificateByHash rt hash st with
        | VerifySucceeded exists_ certificateId participantName eventName timestamp isValid =>
            mkResponse 200
              (JObject
                 [("success", JBool true);
                  ("verified", JBool exists_);
                  ("data",
                   if exists_ then
                     JObject
                       [("certificateId",
                         match certificateId with
                         | Some id => JString id
                         | None => JNull
                         end);
                        ("participantName", JString participantName);
                        ("eventName", JString eventName);
                        ("timestamp",
                         match timestamp with
                         | Some t => JString t
                         | None => JNull
                         end);
                        ("isValid", JBool isValid);
                        ("certificateHash", JString hash)]
                   else JNull);
                  ("message", JString (verifyMessage exists_ isValid))])
        | VerifyFailed error =>
            mkResponse 500
              (JObject [("success", JBool false);
                        ("error", JString "Failed to verify certificate");
                        ("message", JString error)])
        end
  end.




(** The ways a request to the issuing endpoint can end. *)
Inductive PostIssueOutcome (rt : Runtime) (service : option N) (net : Mined)
    (req : IssueRequest) (w : World) : World * Response -> Prop :=
| post_no_service resp :
    service = None -> status resp = 500 ->
    PostIssueOutcome rt service net req w (w, resp)
| post_upload_refused wallet message resp :
    service = Some wallet -> req_upload req = UploadRefused message ->
    status resp = 500 ->
    PostIssueOutcome rt service net req w (w, resp)
| post_bad_request wallet req_file resp :
    service = Some wallet -> req_upload req = Uploaded req_file ->
    truthy (req_participantName req) = false \/
    truthy (req_eventName req) = false \/ req_file = None ->
    status resp = 400 ->
    PostIssueOutcome rt service net req w (w, resp)
| post_unreadable wallet file resp :
    service = Some wallet -> req_upload req = Uploaded (Some file) ->
    truthy (req_participantName req) = true ->
    truthy (req_eventName req) = true ->
    uploads w !! file_path file = None ->
    status resp = 500 ->
    PostIssueOutcome rt service net req w (fs_remove (file_path file) w, resp)
| post_chain_failed wallet file fileBuffer resp :
    service = Some wallet -> req_upload req = Uploaded (Some file) ->
    truthy (req_participantName req) = true ->
    truthy (req_eventName req) = true ->
    uploads w !! file_path file = Some fileBuffer ->
    status resp = 500 ->
    PostIssueOutcome rt service net req w (fs_remove (file_path file) w, resp)
| post_issued wallet file fileBuffer p e resp :
    service = Some wallet -> req_upload req = Uploaded (Some file) ->
    req_participantName req = Str p -> req_eventName req = Str e ->
    p <> "" -> e <> "" ->
    uploads w !! file_path file = Some fileBuffer ->
    refusal net = None ->
    wallet = owner (chain w) ->
    generateFileHash rt fileBuffer <> "" ->
    idOfHash (chain w) (generateFileHash rt fileBuffer) = 0 ->
    nextCertificateId (chain w) < MAX_UINT256 ->
    status resp = 200 ->
    (jfield "data" (body resp) ≫= jfield "certificateId")
    = Some (JString (pretty (nextCertificateId (chain w)))) ->
    PostIssueOutcome rt service net req w
      (mkWorld (issue_post (mkMsg wallet (block_time net)) p e
                           (generateFileHash rt fileBuffer) (chain w))
               (uploads w),
       resp).

(** A runtime and requests for the worked examples: the digest of a file is
    taken to be ["sha256:"] followed by its content, the ISO text of a date
    its number of seconds. *)
Definition demoRuntime : Runtime :=
  mkRuntime (fun buffer => "sha256:" +:+ buffer)
            (fun code => "Panic due to OVERFLOW(" +:+ pretty code +:+ ")")
            (fun _ => None)
            (fun _ => "execution reverted")
            (fun path => "ENOENT: no such file or directory, open '" +:+ path +:+ "'")
            (fun _ => "invalid string value")
            (fun seconds => pretty seconds)
            "Invalid time value".

Definition demoMined : Mined := mkMined 1700000000 "0xabc" 42 120000 None.

Definition demoFile : File :=
  mkFile "uploads/certificate-1.pdf" "certificate-1.pdf" "alice.pdf" 5.

Definition demoRequest : IssueRequest :=
  mkIssueRequest (Str "Alice") (Str "Contest2024") (Uploaded (Some demoFile))
                 "http" "localhost:3000".

Definition demoWorld : World :=
  mkWorld (constructor alice) {[ "uploads/certificate-1.pdf" := "%PDF1" ]}.


(** * Properties *)

(** ** The worked run *)

Example demo_issue :
  snd (transact (constructor alice) (alice, IssueCertificate "Alice" "Contest2024" "aaa111"))
  = inr (VId 1).
Proof. reflexivity. Qed.

Example demo_lookup_unknown :
  snd (transact (run (constructor alice) demo) (mallory, VerifyCertificateByHash "zzz999"))
  = inr (VByHash (mkByHash false 0 "" "" 0 false)).
Proof. reflexivity. Qed.

Example demo_lookup_revoked :
  snd (transact (run (constructor alice) demo) (mallory, VerifyCertificateById 1))
  = inr (VById (mkById true "Alice" "Contest2024" "aaa111" 1700000000 false)).
Proof. reflexivity. Qed.

Example demo_reissue :
  snd (transact (run (constructor alice) demo) (alice, IssueCertificate "Bob" "Contest2024" "aaa111"))
  = inl (Error "Certificate with this hash already exists").
Proof. reflexivity. Qed.

Example demo_total :
  snd (transact (run (constructor alice) demo) (mallory, GetTotalCertificates))
  = inr (VTotal 1).
Proof. reflexivity. Qed.

(** ** Basic facts about values *)

Lemma MAX_UINT256_pos : 1 < MAX_UINT256.
Proof. reflexivity. Qed.

Lemma nonempty_false (s : string) : nonempty s = false <-> s = "".
Proof. unfold nonempty, Nat.ltb. destruct s; simpl; split; intros H; congruence. Qed.

Lemma nonempty_true (s : string) : nonempty s = true <-> s <> "".
Proof. unfold nonempty, Nat.ltb. destruct s; simpl; split; intros H; congruence. Qed.

Lemma checked_add_Some (a b : N) :
  a + b <= MAX_UINT256 -> checked_add a b = Some (a + b).
Proof.
  intros H. unfold checked_add.
  destruct (N.leb_spec (a + b) MAX_UINT256); [reflexivity | lia].
Qed.

Lemma checked_add_None (a b : N) :
  MAX_UINT256 < a + b -> checked_add a b = None.
Proof.
  intros H. unfold checked_add.
  destruct (N.leb_spec (a + b) MAX_UINT256); [lia | reflexivity].
Qed.

Lemma checked_sub_Some (a b : N) : b <= a -> checked_sub a b = Some (a - b).
Proof.
  intros H. unfold checked_sub.
  destruct (N.leb_spec b a); [reflexivity | lia].
Qed.

(** ** What each function computes *)

Ltac unfold_body :=
  unfold issueCertificate, revokeCertificate, verifyCertificateByHash,
    verifyCertificateById, getTotalCertificates, onlyOwner,
    set_certificate, set_hashToCertificateId, set_nextCertificateId, emit,
    checked, require, bind, gets, modify, ret, revert; cbn beta iota.

Lemma issueCertificate_outcome (msg : Msg) (p e h : string) (st : State) :
  IssueOutcome msg p e h st (issueCertificate msg p e h st).
Proof.
  unfold_body.
  destruct (N.eqb_spec (sender msg) (owner st)) as [Ho | Ho]; cbn beta iota;
    [| by apply issue_not_owner].
  destruct (nonempty p) eqn:Hp; cbn beta iota;
    [apply nonempty_true in Hp | apply nonempty_false in Hp; by apply issue_no_participant].
  destruct (nonempty e) eqn:He; cbn beta iota;
    [apply nonempty_true in He | apply nonempty_false in He; by apply issue_no_event].
  destruct (nonempty h) eqn:Hh; cbn beta iota;
    [apply nonempty_true in Hh | apply nonempty_false in Hh; by apply issue_no_hash].
  destruct (N.eqb_spec (idOfHash st h) 0) as [Hk | Hk]; cbn beta iota;
    [| by apply issue_duplicate].
  cbn [nextCertificateId certificates hashToCertificateId owner events].
  unfold checked_add.
  destruct (N.leb_spec (nextCertificateId st + 1) MAX_UINT256) as [Hn | Hn];
    cbn beta iota.
  - apply issue_ok; try done. lia.
  - apply issue_overflow; try done. lia.
Qed.

Lemma revokeCertificate_outcome (msg : Msg) (id : N) (st : State) :
  RevokeOutcome msg id st (revokeCertificate msg id st).
Proof.
  unfold_body.
  destruct (N.eqb_spec (sender msg) (owner st)) as [Ho | Ho]; cbn beta iota;
    [| by apply revoke_not_owner].
  destruct (N.ltb_spec 0 id) as [H0 | H0]; cbn [andb]; cbn beta iota;
    [| apply revoke_out_of_range; [done | lia]].
  destruct (N.ltb_spec id (nextCertificateId st)) as [H1 | H1]; cbn beta iota;
    [| apply revoke_out_of_range; [done | lia]].
  destruct (isValid (certificateAt st id)) eqn:Hv; cbn beta iota.
  - by apply revoke_ok.
  - by apply revoke_already.
Qed.

(** The view functions return and leave the storage alone. *)
Lemma verifyCertificateByHash_eq (h : string) (st : State) :
  verifyCertificateByHash h st =
  Returned
    (if idOfHash st h =? 0 then mkByHash false 0 "" "" 0 false
     else let cert := certificateAt st (idOfHash st h) in
          mkByHash true (idOfHash st h) (participantName cert) (eventName cert)
                   (timestamp cert) (isValid cert))
    st.
Proof. unfold_body. by destruct (idOfHash st h =? 0). Qed.

Lemma verifyCertificateById_eq (id : N) (st : State) :
  verifyCertificateById id st =
  Returned
    (if (id =? 0) || (nextCertificateId st <=? id) then mkById false "" "" "" 0 false
     else let cert := certificateAt st id in
          mkById true (participantName cert) (eventName cert)
                 (certificateHash cert) (timestamp cert) (isValid cert))
    st.
Proof. unfold_body. by destruct ((id =? 0) || (nextCertificateId st <=? id)). Qed.

Lemma getTotalCertificates_eq (st : State) :
  1 <= nextCertificateId st ->
  getTotalCertificates st = Returned (nextCertificateId st - 1) st.
Proof. intros H. unfold_body. by rewrite checked_sub_Some. Qed.

Lemma getTotalCertificates_storage (st : State) (r : Result N) :
  getTotalCertificates st = r ->
  match r with Returned _ st' => st' = st | Reverted _ st' => st' = st end.
Proof.
  intros <-. unfold_body. by destruct (checked_sub (nextCertificateId st) 1).
Qed.

(** ** What a transaction does to the storage *)

Lemma transact_effect (st : State) (tx : Tx) : Effect st tx (transact st tx).
Proof.
  destruct tx as [msg c]. unfold transact, call, dispatch. cbn [fst snd].
  destruct c as [p e h | h | id | id |].
  - unfold bind at 1.
    destruct (issueCertificate_outcome msg p e h st);
      try (apply effect_none; congruence).
    by apply (effect_issue st (msg, IssueCertificate p e h) p e h).
  - unfold bind at 1. rewrite verifyCertificateByHash_eq.
    apply effect_none; congruence.
  - unfold bind at 1. rewrite verifyCertificateById_eq.
    apply effect_none; congruence.
  - unfold bind at 1.
    destruct (revokeCertificate_outcome msg id st);
      try (apply effect_none; congruence).
    by apply (effect_revoke st (msg, RevokeCertificate id) id).
  - unfold bind at 1.
    pose proof (getTotalCertificates_storage st _ eq_refl) as Hs.
    destruct (getTotalCertificates st); subst; apply effect_none; unfold ret; congruence.
Qed.

Lemma run_snoc (st : State) (txs : list Tx) (tx : Tx) :
  run st (txs ++ [tx]) = step (run st txs) tx.
Proof. unfold run. by rewrite fold_left_app. Qed.

Lemma run_cons (st : State) (tx : Tx) (txs : list Tx) :
  run st (tx :: txs) = run (step st tx) txs.
Proof. reflexivity. Qed.

Lemma reachable_run (st : State) (txs : list Tx) :
  reachable st -> reachable (run st txs).
Proof.
  revert st. induction txs as [| tx txs IH]; intros st H; [done |].
  rewrite run_cons. apply IH. by apply reachable_step.
Qed.

Lemma reachable_is_run (st : State) :
  reachable st -> exists msg txs, st = run (constructor msg) txs.
Proof.
  induction 1 as [msg | st tx _ (msg & txs & ->)].
  - by exists msg, [].
  - exists msg, (txs ++ [tx]). by rewrite run_snoc.
Qed.

(** ** Reading the storage after a write *)

Lemma certificateAt_issue_post (msg : Msg) (p e h : string) (st : State) (id : N) :
  certificateAt (issue_post msg p e h st) id =
  if decide (id = nextCertificateId st)
  then mkCertificate p e h (block_timestamp msg) true
  else certificateAt st id.
Proof.
  unfold certificateAt, issue_post. cbn [certificates].
  case_decide as Hid.
  - subst id. by rewrite lookup_insert_eq.
  - by rewrite lookup_insert_ne.
Qed.

Lemma idOfHash_issue_post (msg : Msg) (p e h : string) (st : State) (h' : string) :
  idOfHash (issue_post msg p e h st) h' =
  if decide (h' = h) then nextCertificateId st else idOfHash st h'.
Proof.
  unfold idOfHash, issue_post. cbn [hashToCertificateId].
  case_decide as Hh.
  - subst h'. by rewrite lookup_insert_eq.
  - by rewrite lookup_insert_ne.
Qed.

Lemma certificateAt_revoke_post (id : N) (st : State) (id' : N) :
  certificateAt (revoke_post id st) id' =
  if decide (id' = id)
  then mkCertificate (participantName (certificateAt st id))
                     (eventName (certificateAt st id))
                     (certificateHash (certificateAt st id))
                     (timestamp (certificateAt st id)) false
  else certificateAt st id'.
Proof.
  unfold revoke_post. unfold certificateAt at 1. cbn [certificates].
  case_decide as Hid.
  - subst id'. by rewrite lookup_insert_eq.
  - by rewrite lookup_insert_ne.
Qed.

Lemma idOfHash_revoke_post (id : N) (st : State) (h : string) :
  idOfHash (revoke_post id st) h = idOfHash st h.
Proof. reflexivity. Qed.

(** ** Invariants of the storage *)

Lemma Inv_constructor (msg : Msg) : Inv (constructor msg).
Proof.
  split; cbn [constructor nextCertificateId].
  - pose proof MAX_UINT256_pos. lia.
  - intros h. unfold idOfHash. cbn. rewrite lookup_empty. cbn. lia.
  - intros h. unfold idOfHash. cbn. rewrite lookup_empty. cbn. lia.
  - intros id. lia.
  - intros id. lia.
Qed.

Lemma Inv_issue_post (msg : Msg) (p e h : string) (st : State) :
  Inv st -> p <> "" -> e <> "" -> h <> "" ->
  idOfHash st h = 0 -> nextCertificateId st < MAX_UINT256 ->
  Inv (issue_post msg p e h st).
Proof.
  intros [Hn Hr Hh Hi Hf] Hp He Hhne Hk Hlt.
  split; cbn [issue_post nextCertificateId].
  - lia.
  - intros h'. rewrite idOfHash_issue_post. case_decide; [lia |].
    specialize (Hr h'). lia.
  - intros h'. rewrite idOfHash_issue_post. case_decide as Heq.
    + intros _. rewrite certificateAt_issue_post. by rewrite decide_True.
    + intros Hne. rewrite certificateAt_issue_post.
      rewrite decide_False; [by apply Hh |]. specialize (Hr h'). lia.
  - intros id Hid. rewrite certificateAt_issue_post. case_decide as Heq.
    + cbn [certificateHash]. rewrite idOfHash_issue_post. by rewrite decide_True.
    + rewrite idOfHash_issue_post. case_decide as Heq'.
      * exfalso. assert (Hlt' : 0 < id < nextCertificateId st) by lia.
        specialize (Hi id Hlt'). rewrite Heq' in Hi. lia.
      * apply Hi. lia.
  - intros id Hid. rewrite certificateAt_issue_post. case_decide as Heq.
    + by cbn.
    + apply Hf. lia.
Qed.

Lemma Inv_revoke_post (id : N) (st : State) :
  Inv st -> 0 < id < nextCertificateId st -> Inv (revoke_post id st).
Proof.
  intros [Hn Hr Hh Hi Hf] Hid.
  split; cbn [revoke_post nextCertificateId].
  - lia.
  - intros h. rewrite idOfHash_revoke_post. apply Hr.
  - intros h. rewrite idOfHash_revoke_post. intros Hne.
    rewrite certificateAt_revoke_post. case_decide as Heq.
    + cbn [certificateHash]. rewrite <- Heq. by apply Hh.
    + by apply Hh.
  - intros id' Hid'. rewrite idOfHash_revoke_post, certificateAt_revoke_post.
    case_decide as Heq.
    + cbn [certificateHash]. subst id'. by apply Hi.
    + by apply Hi.
  - intros id' Hid'. rewrite certificateAt_revoke_post. case_decide as Heq.
    + cbn. by apply Hf.
    + by apply Hf.
Qed.

Lemma Inv_step (st : State) (tx : Tx) : Inv st -> Inv (step st tx).
Proof.
  intros HI. unfold step.
  destruct (transact_effect st tx); cbn [fst].
  - by apply Inv_issue_post.
  - by apply Inv_revoke_post.
  - done.
Qed.

Lemma Inv_run (st : State) (txs : list Tx) : Inv st -> Inv (run st txs).
Proof.
  revert st. induction txs as [| tx txs IH]; intros st HI; [done |].
  rewrite run_cons. apply IH. by apply Inv_step.
Qed.

Lemma Inv_reachable (st : State) : reachable st -> Inv st.
Proof.
  induction 1 as [msg | st tx _ IH].
  - apply Inv_constructor.
  - by apply Inv_step.
Qed.

(** The owner is set at deployment and never written again. *)
Lemma owner_step (st : State) (tx : Tx) : owner (step st tx) = owner st.
Proof. unfold step. by destruct (transact_effect st tx). Qed.

Lemma owner_run (st : State) (txs : list Tx) : owner (run st txs) = owner st.
Proof.
  revert st. induction txs as [| tx txs IH]; intros st; [done |].
  rewrite run_cons, IH. apply owner_step.
Qed.

(** ** What a transaction preserves *)

Lemma nextCertificateId_step (st : State) (tx : Tx) :
  nextCertificateId (step st tx) =
  if issuance (snd (transact st tx)) then nextCertificateId st + 1
  else nextCertificateId st.
Proof.
  unfold step. destruct (transact_effect st tx) as [| | out Hout]; cbn; try done.
  destruct out as [r | [id | | | |]]; try done. by destruct (Hout id).
Qed.

Lemma nextCertificateId_step_le (st : State) (tx : Tx) :
  nextCertificateId st <= nextCertificateId (step st tx).
Proof.
  rewrite nextCertificateId_step.
  destruct (issuance (snd (transact st tx))); lia.
Qed.

Lemma nextCertificateId_run_le (st : State) (txs : list Tx) :
  nextCertificateId st <= nextCertificateId (run st txs).
Proof.
  revert st. induction txs as [| tx txs IH]; intros st; [cbn; lia |].
  rewrite run_cons. pose proof (nextCertificateId_step_le st tx).
  specialize (IH (step st tx)). lia.
Qed.

(** A record below the counter keeps its contents; only its validity can
    change, and only downwards. *)
Lemma record_step (st : State) (tx : Tx) (id : N) :
  id < nextCertificateId st ->
  sameContents (certificateAt st id) (certificateAt (step st tx) id) /\
  (isValid (certificateAt (step st tx) id) = true ->
   isValid (certificateAt st id) = true).
Proof.
  intros Hid. unfold step, sameContents.
  destruct (transact_effect st tx) as [p e h | id' | out]; cbn [fst].
  - rewrite certificateAt_issue_post. rewrite decide_False by lia. done.
  - rewrite certificateAt_revoke_post. case_decide as Heq; [| done].
    subst id'. cbn. split; [done | congruence].
  - done.
Qed.

Lemma record_run (st : State) (txs : list Tx) (id : N) :
  id < nextCertificateId st ->
  sameContents (certificateAt st id) (certificateAt (run st txs) id) /\
  (isValid (certificateAt (run st txs) id) = true ->
   isValid (certificateAt st id) = true).
Proof.
  revert st. induction txs as [| tx txs IH]; intros st Hid; [by cbn |].
  rewrite run_cons.
  destruct (record_step st tx id Hid) as [(Hp & He & Hh & Ht) Hv].
  assert (Hid' : id < nextCertificateId (step st tx)).
  { pose proof (nextCertificateId_step_le st tx). lia. }
  destruct (IH (step st tx) Hid') as [(Hp' & He' & Hh' & Ht') Hv'].
  unfold sameContents. repeat split; try congruence. auto.
Qed.

(** A validity bit that changes in one transaction was cleared by a
    revocation of that very id that went through. *)
Lemma isValid_change (st : State) (tx : Tx) (id : N) :
  id < nextCertificateId st ->
  isValid (certificateAt (step st tx) id) <> isValid (certificateAt st id) ->
  isValid (certificateAt st id) = true /\
  isValid (certificateAt (step st tx) id) = false /\
  snd tx = RevokeCertificate id /\
  snd (transact st tx) = inr VUnit.
Proof.
  intros Hid. unfold step.
  destruct (transact_effect st tx) as [p e h | id' Htx Ho Hr Hv | out]; cbn [fst snd].
  - rewrite certificateAt_issue_post. rewrite decide_False by lia. done.
  - rewrite certificateAt_revoke_post. case_decide as Heq; [| done].
    subst id'. cbn. done.
  - done.
Qed.

(** The hash index only grows: an entry, once set, is never rewritten. *)
Lemma idOfHash_step (st : State) (tx : Tx) (h : string) :
  idOfHash st h <> 0 -> idOfHash (step st tx) h = idOfHash st h.
Proof.
  intros Hne. unfold step.
  destruct (transact_effect st tx) as [p e h' | id' | out]; cbn [fst]; try done.
  rewrite idOfHash_issue_post. case_decide; [congruence | done].
Qed.

Lemma idOfHash_run (st : State) (txs : list Tx) (h : string) :
  idOfHash st h <> 0 -> idOfHash (run st txs) h = idOfHash st h.
Proof.
  revert st. induction txs as [| tx txs IH]; intros st Hne; [done |].
  rewrite run_cons, IH; rewrite idOfHash_step; done.
Qed.

(** ** The ids and hashes handed out along a run *)

Lemma issuedIds_cons (st : State) (tx : Tx) (txs : list Tx) :
  issuedIds st (tx :: txs) =
  if issuance (snd (transact st tx))
  then nextCertificateId st :: issuedIds (step st tx) txs
  else issuedIds (step st tx) txs.
Proof.
  cbn [issuedIds]. unfold step.
  destruct (transact_effect st tx) as [| | out Hout]; cbn; try done.
  destruct out as [r | [id | | | |]]; try done. by destruct (Hout id).
Qed.

Lemma issuedHashes_cons (st : State) (tx : Tx) (txs : list Tx) :
  issuedHashes st (tx :: txs) =
  match snd tx with
  | IssueCertificate _ _ h =>
      if issuance (snd (transact st tx))
      then h :: issuedHashes (step st tx) txs
      else issuedHashes (step st tx) txs
  | _ => issuedHashes (step st tx) txs
  end.
Proof.
  cbn [issuedHashes]. unfold step.
  destruct (transact_effect st tx) as [p e h Htx | id Htx | out Hout]; cbn [fst snd].
  - rewrite Htx. done.
  - rewrite Htx. done.
  - destruct out as [r | [id | | | |]]; cbn; by destruct (snd tx).
Qed.

Lemma countFrom_S (a : N) (n : nat) :
  countFrom a (S n) = a :: countFrom (a + 1) n.
Proof.
  unfold countFrom. cbn [seq map]. f_equal; [lia |].
  rewrite <- seq_shift, map_map. apply map_ext. intros k. lia.
Qed.

Lemma issuedIds_run (st : State) (txs : list Tx) :
  issuedIds st txs = countFrom (nextCertificateId st) (length (issuedIds st txs)) /\
  nextCertificateId (run st txs) =
  nextCertificateId st + N.of_nat (length (issuedIds st txs)).
Proof.
  revert st. induction txs as [| tx txs IH]; intros st.
  - cbn. split; [done | lia].
  - rewrite issuedIds_cons, run_cons.
    destruct (IH (step st tx)) as [IHids IHnext].
    pose proof (nextCertificateId_step st tx) as Hstep.
    destruct (issuance (snd (transact st tx))).
    + cbn [length]. rewrite countFrom_S. rewrite <- Hstep, <- IHids.
      split; [done |]. rewrite IHnext, Hstep. lia.
    + rewrite Hstep in IHids, IHnext. done.
Qed.

Lemma elem_of_countFrom (a : N) (n : nat) (x : N) :
  x ∈ countFrom a n <-> a <= x < a + N.of_nat n.
Proof.
  unfold countFrom. rewrite list_elem_of_fmap. split.
  - intros (k & -> & Hk). apply elem_of_seq in Hk. lia.
  - intros Hx. exists (N.to_nat (x - a)). split; [lia |].
    apply elem_of_seq. lia.
Qed.

Lemma NoDup_countFrom (a : N) (n : nat) : NoDup (countFrom a n).
Proof.
  unfold countFrom. apply NoDup_fmap_2; [| apply NoDup_seq].
  intros j k Hjk. lia.
Qed.

Lemma issuedHashes_fresh (st : State) (txs : list Tx) :
  1 <= nextCertificateId st ->
  NoDup (issuedHashes st txs) /\
  forall h, h ∈ issuedHashes st txs ->
            idOfHash st h = 0 /\ idOfHash (run st txs) h <> 0.
Proof.
  revert st. induction txs as [| tx txs IH]; intros st Hn.
  - cbn. split; [constructor | intros h Hh; by apply elem_of_nil in Hh].
  - rewrite issuedHashes_cons, run_cons.
    assert (Hn' : 1 <= nextCertificateId (step st tx)).
    { pose proof (nextCertificateId_step_le st tx). lia. }
    destruct (IH (step st tx) Hn') as [IHnd IHh]. clear IH.
    revert IHnd IHh. unfold step.
    destruct (transact_effect st tx) as [p e h Htx Ho Hp He Hh Hk Hlt | id Htx | out Hout];
      cbn [fst snd]; intros IHnd IHh.
    + rewrite Htx. cbn [issuance].
      assert (Hset : idOfHash (issue_post (fst tx) p e h st) h <> 0).
      { rewrite idOfHash_issue_post, decide_True by done. lia. }
      split.
      * constructor; [| done]. intros Hin. apply IHh in Hin. tauto.
      * intros h' Hin. apply elem_of_cons in Hin as [-> | Hin].
        -- split; [done |]. by rewrite idOfHash_run.
        -- destruct (IHh h' Hin) as [H0 H1]. split; [| done].
           rewrite idOfHash_issue_post in H0. case_decide; [lia | done].
    + rewrite Htx. done.
    + assert (Hno : issuance out = false).
      { destruct out as [r | [id | | | |]]; try done. by destruct (Hout id). }
      rewrite Hno. by destruct (snd tx).
Qed.

(** ** Issuance *)

Lemma issueCertificate_returns (msg : Msg) (p e h : string) (st : State) :
  sender msg = owner st -> p <> "" -> e <> "" -> h <> "" ->
  idOfHash st h = 0 -> nextCertificateId st < MAX_UINT256 ->
  issueCertificate msg p e h st =
  Returned (nextCertificateId st) (issue_post msg p e h st).
Proof.
  intros Ho Hp He Hh Hk Hn.
  destruct (issueCertificate_outcome msg p e h st); try done. lia.
Qed.

Lemma issueCertificate_panics (msg : Msg) (p e h : string) (st : State) :
  sender msg = owner st -> p <> "" -> e <> "" -> h <> "" ->
  idOfHash st h = 0 -> MAX_UINT256 <= nextCertificateId st ->
  call (issueCertificate msg p e h) st = (st, inl (Panic ARITHMETIC_PANIC)).
Proof.
  intros Ho Hp He Hh Hk Hn. unfold call.
  destruct (issueCertificate_outcome msg p e h st); try done. lia.
Qed.

Lemma issueCertificate_returned_inv (msg : Msg) (p e h : string) (st st' : State) (id : N) :
  call (issueCertificate msg p e h) st = (st', inr id) ->
  sender msg = owner st /\ p <> "" /\ e <> "" /\ h <> "" /\
  idOfHash st h = 0 /\ nextCertificateId st < MAX_UINT256 /\
  id = nextCertificateId st /\ st' = issue_post msg p e h st.
Proof.
  unfold call.
  destruct (issueCertificate_outcome msg p e h st); intros [= <- <-]; done.
Qed.

Lemma transact_issue (msg : Msg) (p e h : string) (st : State) :
  sender msg = owner st -> p <> "" -> e <> "" -> h <> "" ->
  idOfHash st h = 0 -> nextCertificateId st < MAX_UINT256 ->
  transact st (msg, IssueCertificate p e h)
  = (issue_post msg p e h st, inr (VId (nextCertificateId st))).
Proof.
  intros Ho Hp He Hh Hk Hn.
  unfold transact, call, dispatch. cbn [fst snd]. unfold bind at 1.
  by rewrite issueCertificate_returns.
Qed.

Lemma hashNo_length (k : nat) : String.length (hashNo k) = S k.
Proof.
  induction k as [| k IH]; [done |].
  change (hashNo (S k)) with (String.append "a" (hashNo k)).
  change (S (String.length (hashNo k)) = S (S k)). by rewrite IH.
Qed.

Lemma hashNo_inj (j k : nat) : hashNo j = hashNo k -> j = k.
Proof.
  intros H. apply (f_equal String.length) in H.
  rewrite !hashNo_length in H. lia.
Qed.

Lemma hashNo_head (k : nat) : exists s, hashNo k = String.append "a" s.
Proof. destruct k; [by exists "" | by exists (hashNo k)]. Qed.

Lemma fillers_S (n : nat) : fillers (S n) = fillers n ++ [filler n].
Proof. unfold fillers. by rewrite seq_S, map_app. Qed.

Lemma fillers_run (n : nat) :
  N.of_nat n + 1 <= MAX_UINT256 ->
  nextCertificateId (run (constructor alice) (fillers n)) = N.of_nat n + 1 /\
  owner (run (constructor alice) (fillers n)) = sender alice /\
  forall h, idOfHash (run (constructor alice) (fillers n)) h <> 0 ->
            exists k, (k < n)%nat /\ h = hashNo k.
Proof.
  induction n as [| n IH]; intros Hn.
  - cbn. repeat split; done.
  - destruct IH as (IHn & IHo & IHh); [lia |].
    rewrite fillers_S, run_snoc.
    set (st := run (constructor alice) (fillers n)) in *.
    assert (Hfresh : idOfHash st (hashNo n) = 0).
    { destruct (N.eq_dec (idOfHash st (hashNo n)) 0) as [| Hne]; [done |].
      destruct (IHh _ Hne) as (k & Hk & Heq). apply hashNo_inj in Heq. lia. }
    assert (Hne : hashNo n <> "").
    { destruct (hashNo_head n) as [s ->]. done. }
    unfold step, filler.
    rewrite transact_issue; try done; [| lia].
    cbn [fst issue_post nextCertificateId owner].
    repeat split; [lia | done |].
    intros h. rewrite idOfHash_issue_post. case_decide as Heq.
    + intros _. exists n. split; [lia | done].
    + intros Hh. destruct (IHh h Hh) as (k & Hk & ->). exists k. split; [lia | done].
Qed.

Lemma fillers_hashes (n : nat) :
  N.of_nat n + 1 <= MAX_UINT256 ->
  forall h, idOfHash (run (constructor alice) (fillers n)) h <> 0 ->
            exists k : nat, h = hashNo k.
Proof.
  intros Hn h Hne.
  destruct (proj2 (proj2 (fillers_run n Hn)) h Hne) as (k & _ & Hk).
  exists k. exact Hk.
Qed.

Lemma fill_count : N.of_nat (N.to_nat (MAX_UINT256 - 1)) + 1 = MAX_UINT256.
Proof. rewrite N2Nat.id. pose proof MAX_UINT256_pos. lia. Qed.

Lemma fill_bound : N.of_nat (N.to_nat (MAX_UINT256 - 1)) + 1 <= MAX_UINT256.
Proof. rewrite fill_count. apply N.le_refl. Qed.

Lemma exhausted_reachable : reachable exhausted.
Proof. exact (reachable_run _ _ (reachable_deploy alice)). Qed.

Lemma exhausted_next : nextCertificateId exhausted = MAX_UINT256.
Proof. exact (eq_trans (proj1 (fillers_run _ fill_bound)) fill_count). Qed.

Lemma exhausted_owner : owner exhausted = sender alice.
Proof. exact (proj1 (proj2 (fillers_run _ fill_bound))). Qed.

Lemma exhausted_hashes (h : string) :
  idOfHash exhausted h <> 0 -> exists k : nat, h = hashNo k.
Proof. exact (fillers_hashes _ fill_bound h). Qed.

(** Any storage whose counter holds [2^256 - 1]: the owner's issuance of a
    hash never seen passes every [require], overflows in
    [nextCertificateId++] and reverts. *)
Lemma counter_exhausted_state (st : State) :
  nextCertificateId st = MAX_UINT256 ->
  owner st = sender alice ->
  (forall h, idOfHash st h <> 0 -> exists k : nat, h = hashNo k) ->
  sender alice = owner st /\
  idOfHash st "bbb222" = 0 /\
  nextCertificateId st = MAX_UINT256 /\
  call (issueCertificate alice "Bob" "Contest2024" "bbb222") st
  = (st, inl (Panic ARITHMETIC_PANIC)).
Proof.
  intros Hn Ho Hh.
  assert (Hfresh : idOfHash st "bbb222" = 0).
  { destruct (N.eq_dec (idOfHash st "bbb222") 0) as [| Hne]; [done |].
    destruct (Hh _ Hne) as (k & Heq).
    destruct (hashNo_head k) as [s Hs]. rewrite Hs in Heq. done. }
  repeat split; try done.
  apply issueCertificate_panics; try done. lia.
Qed.

(** With [2^256 - 2] certificates issued the counter holds [2^256 - 1]: a
    reachable state in which the owner's issuance of a fresh hash with
    non-empty names does not go through. *)
Lemma issue_reverts_when_counter_exhausted :
  reachable exhausted /\
  sender alice = owner exhausted /\
  idOfHash exhausted "bbb222" = 0 /\
  nextCertificateId exhausted = MAX_UINT256 /\
  call (issueCertificate alice "Bob" "Contest2024" "bbb222") exhausted
  = (exhausted, inl (Panic ARITHMETIC_PANIC)).
Proof.
  exact (conj exhausted_reachable
           (counter_exhausted_state exhausted exhausted_next exhausted_owner
              exhausted_hashes)).
Qed.

(** C1 (as amended). In every registry state whose counter satisfies
    [1 <= nextCertificateId < 2^256 - 1] (every reachable state has
    [1 <= nextCertificateId]), an issuance by the owner with a non-empty participant
    name, event name and content hash, the hash not yet in the index, goes
    through and returns [id = nextCertificateId]. Afterwards
    [certificates[id]] holds exactly the given participant name, event name
    and hash with [isValid = true] and [timestamp = block.timestamp], the
    index maps the hash to [id], the counter is one higher, and
    [verifyCertificateByHash] of the hash returns that record. *)
Theorem issue_registers (st : State) (msg : Msg) (p e h : string) :
  1 <= nextCertificateId st < MAX_UINT256 ->
  sender msg = owner st -> p <> "" -> e <> "" -> h <> "" ->
  idOfHash st h = 0 ->
  exists st',
    call (issueCertificate msg p e h) st = (st', inr (nextCertificateId st)) /\
    certificateAt st' (nextCertificateId st)
    = mkCertificate p e h (block_timestamp msg) true /\
    idOfHash st' h = nextCertificateId st /\
    nextCertificateId st' = nextCertificateId st + 1 /\
    call (verifyCertificateByHash h) st'
    = (st', inr (mkByHash true (nextCertificateId st) p e (block_timestamp msg) true)).
Proof.
  intros [Hnext Hn] Ho Hp He Hh Hk.
  exists (issue_post msg p e h st).
  assert (Hc : certificateAt (issue_post msg p e h st) (nextCertificateId st)
               = mkCertificate p e h (block_timestamp msg) true).
  { by rewrite certificateAt_issue_post, decide_True. }
  assert (Hi : idOfHash (issue_post msg p e h st) h = nextCertificateId st).
  { by rewrite idOfHash_issue_post, decide_True. }
  repeat split; try done.
  - unfold call. by rewrite issueCertificate_returns.
  - unfold call. rewrite verifyCertificateByHash_eq, Hi.
    destruct (N.eqb_spec (nextCertificateId st) 0) as [H0 | _]; [lia |].
    cbn zeta. by rewrite Hc.
Qed.

Lemma issue_registers_demo :
  exists st',
    call (issueCertificate alice "Alice" "Contest2024" "aaa111") (constructor alice)
    = (st', inr 1) /\
    certificateAt st' 1 = mkCertificate "Alice" "Contest2024" "aaa111" 1700000000 true /\
    idOfHash st' "aaa111" = 1 /\
    nextCertificateId st' = 2 /\
    call (verifyCertificateByHash "aaa111") st'
    = (st', inr (mkByHash true 1 "Alice" "Contest2024" 1700000000 true)).
Proof.
  apply (issue_registers (constructor alice) alice "Alice" "Contest2024" "aaa111").
  - cbn [constructor nextCertificateId]. split; [lia | reflexivity].
  - reflexivity.
  - discriminate.
  - discriminate.
  - discriminate.
  - reflexivity.
Defined.

(** ** Rejected issuances *)

Lemma call_reverted {A} (m : M A) (st st' : State) (r : Revert) :
  m st = Reverted r st' -> call m st = (st, inl r).
Proof. intros H. unfold call. by rewrite H. Qed.

Lemma call_returned {A} (m : M A) (st st' : State) (a : A) :
  m st = Returned a st' -> call m st = (st', inr a).
Proof. intros H. unfold call. by rewrite H. Qed.

Lemma call_failed_storage {A} (m : M A) (st : State) (r : Revert) :
  snd (call m st) = inl r -> fst (call m st) = st.
Proof. unfold call. by destruct (m st). Qed.

Lemma getTotalCertificates_call (st : State) :
  1 <= nextCertificateId st ->
  call getTotalCertificates st = (st, inr (nextCertificateId st - 1)).
Proof. intros H. unfold call. by rewrite getTotalCertificates_eq. Qed.

Lemma issueCertificate_validation (msg : Msg) (p e h : string) (st : State) :
  sender msg = owner st -> p = "" \/ e = "" \/ h = "" ->
  exists r, issueCertificate msg p e h st = Reverted r st /\
            errorKind r = Some ValidationError.
Proof.
  intros Ho Hempty.
  destruct (issueCertificate_outcome msg p e h st);
    first [ tauto | eexists; split; reflexivity ].
Qed.

Lemma issueCertificate_duplicate (msg : Msg) (p e h : string) (st : State) :
  sender msg = owner st -> p <> "" -> e <> "" -> h <> "" ->
  idOfHash st h <> 0 ->
  issueCertificate msg p e h st
  = Reverted (Error "Certificate with this hash already exists") st.
Proof.
  intros Ho Hp He Hh Hk.
  by destruct (issueCertificate_outcome msg p e h st).
Qed.

(** C2. An issuance by the owner with an empty participant name, event name
    or content hash fails with a validation error; one with all three
    non-empty and a content hash already in the index fails with the
    duplicate-hash error; both revert before any write. Whatever the reason
    of a failed issuance, the storage after the call is the storage before
    it. In particular, in a reachable state, once an issuance of hash [h]
    went through, a second issuance of [h] fails with the duplicate-hash
    error and leaves the storage, hence [getTotalCertificates], as the first
    left them. *)
Theorem issue_rejects (st : State) (msg : Msg) (p e h : string) :
  (sender msg = owner st -> p = "" \/ e = "" \/ h = "" ->
   exists r, issueCertificate msg p e h st = Reverted r st /\
             errorKind r = Some ValidationError /\
             call (issueCertificate msg p e h) st = (st, inl r)) /\
  (sender msg = owner st -> p <> "" -> e <> "" -> h <> "" ->
   idOfHash st h <> 0 ->
   issueCertificate msg p e h st
   = Reverted (Error "Certificate with this hash already exists") st /\
   call (issueCertificate msg p e h) st
   = (st, inl (Error "Certificate with this hash already exists")) /\
   failsWith (call (issueCertificate msg p e h) st) DuplicateHashError) /\
  (forall r, snd (call (issueCertificate msg p e h) st) = inl r ->
             fst (call (issueCertificate msg p e h) st) = st) /\
  (reachable st ->
   forall st1 id, call (issueCertificate msg p e h) st = (st1, inr id) ->
   forall msg2 p2 e2, sender msg2 = owner st1 -> p2 <> "" -> e2 <> "" ->
     call (issueCertificate msg2 p2 e2 h) st1
     = (st1, inl (Error "Certificate with this hash already exists")) /\
     failsWith (call (issueCertificate msg2 p2 e2 h) st1) DuplicateHashError /\
     call getTotalCertificates (fst (call (issueCertificate msg2 p2 e2 h) st1))
     = call getTotalCertificates st1 /\
     call getTotalCertificates st1 = (st1, inr id)).
Proof.
  split; [| split; [| split]].
  - intros Ho Hempty.
    destruct (issueCertificate_validation msg p e h st Ho Hempty) as (r & Hbody & Hkind).
    exists r. split; [done | split; [done |]]. by apply (call_reverted _ _ st).
  - intros Ho Hp He Hh Hk.
    pose proof (issueCertificate_duplicate msg p e h st Ho Hp He Hh Hk) as Hbody.
    split; [done |].
    pose proof (call_reverted _ _ _ _ Hbody) as Hcall.
    split; [done |]. unfold failsWith. by rewrite Hcall.
  - intros r. apply call_failed_storage.
  - intros Hr st1 id Hcall msg2 p2 e2 Ho2 Hp2 He2.
    apply issueCertificate_returned_inv in Hcall
      as (Ho & Hp & He & Hh & Hk & Hn & -> & ->).
    pose proof (inv_next st (Inv_reachable st Hr)) as Hnext.
    assert (Hk1 : idOfHash (issue_post msg p e h st) h <> 0).
    { rewrite idOfHash_issue_post, decide_True by done. lia. }
    pose proof (issueCertificate_duplicate msg2 p2 e2 h _ Ho2 Hp2 He2 Hh Hk1) as Hbody.
    pose proof (call_reverted _ _ _ _ Hbody) as Hcall.
    rewrite Hcall. cbn [fst]. unfold failsWith. cbn [snd].
    split; [done | split; [done | split; [done |]]].
    rewrite getTotalCertificates_call; cbn [issue_post nextCertificateId]; [| lia].
    do 2 f_equal. lia.
Qed.

Lemma issue_rejects_demo :
  (exists r,
     issueCertificate alice "" "Contest2024" "aaa111" (constructor alice)
     = Reverted r (constructor alice) /\
     errorKind r = Some ValidationError /\
     call (issueCertificate alice "" "Contest2024" "aaa111") (constructor alice)
     = (constructor alice, inl r)) /\
  (call (issueCertificate alice "Bob" "Contest2024" "aaa111")
        (issue_post alice "Alice" "Contest2024" "aaa111" (constructor alice))
   = (issue_post alice "Alice" "Contest2024" "aaa111" (constructor alice),
      inl (Error "Certificate with this hash already exists"))).
Proof.
  split.
  - apply (issue_rejects (constructor alice) alice "" "Contest2024" "aaa111");
      [reflexivity | by left].
  - apply (issue_rejects (constructor alice) alice "Alice" "Contest2024" "aaa111")
      with (id := 1) (msg2 := alice) (p2 := "Bob") (e2 := "Contest2024");
      [apply reachable_deploy | reflexivity | reflexivity | discriminate | discriminate].
Defined.

(** ** The owner guard *)

(** C3. A caller whose address differs from [owner] gets the unauthorized
    error from [issueCertificate] and from [revokeCertificate]; the
    comparison is plain equality of addresses. The revert comes from the
    [onlyOwner] check, before any write: the storage at the point of the
    revert and the storage after the call are the storage before the call,
    so [certificates], [hashToCertificateId], [nextCertificateId] and every
    [isValid] are as they were. *)
Theorem only_owner_writes (st : State) (msg : Msg) :
  sender msg <> owner st ->
  errorKind (Error "Only owner can call this function") = Some UnauthorizedError /\
  (forall p e h,
     issueCertificate msg p e h st
     = Reverted (Error "Only owner can call this function") st /\
     call (issueCertificate msg p e h) st
     = (st, inl (Error "Only owner can call this function")) /\
     step st (msg, IssueCertificate p e h) = st) /\
  (forall id,
     revokeCertificate msg id st
     = Reverted (Error "Only owner can call this function") st /\
     call (revokeCertificate msg id) st
     = (st, inl (Error "Only owner can call this function")) /\
     step st (msg, RevokeCertificate id) = st).
Proof.
  intros Hne. split; [reflexivity |]. split.
  - intros p e h.
    assert (Hbody : issueCertificate msg p e h st
                    = Reverted (Error "Only owner can call this function") st).
    { by destruct (issueCertificate_outcome msg p e h st). }
    split; [done |].
    unfold step, transact, call, dispatch. cbn [fst snd]. unfold bind at 1.
    by rewrite Hbody.
  - intros id.
    assert (Hbody : revokeCertificate msg id st
                    = Reverted (Error "Only owner can call this function") st).
    { by destruct (revokeCertificate_outcome msg id st). }
    split; [done |].
    unfold step, transact, call, dispatch. cbn [fst snd]. unfold bind at 1.
    by rewrite Hbody.
Qed.

Lemma only_owner_writes_demo :
  call (issueCertificate mallory "Eve" "Contest2024" "eee555") (constructor alice)
  = (constructor alice, inl (Error "Only owner can call this function")) /\
  call (revokeCertificate mallory 1)
       (issue_post alice "Alice" "Contest2024" "aaa111" (constructor alice))
  = (issue_post alice "Alice" "Contest2024" "aaa111" (constructor alice),
     inl (Error "Only owner can call this function")).
Proof.
  split.
  - apply (only_owner_writes (constructor alice) mallory); discriminate.
  - apply (only_owner_writes
             (issue_post alice "Alice" "Contest2024" "aaa111" (constructor alice))
             mallory); discriminate.
Defined.

(** ** Revocation *)

Lemma revokeCertificate_returned_inv (msg : Msg) (id : N) (st st' : State) (u : unit) :
  call (revokeCertificate msg id) st = (st', inr u) ->
  sender msg = owner st /\ 0 < id < nextCertificateId st /\
  isValid (certificateAt st id) = true /\ st' = revoke_post id st.
Proof.
  unfold call.
  destruct (revokeCertificate_outcome msg id st); intros [= <-]; done.
Qed.

Lemma revokeCertificate_invalid_id (msg : Msg) (id : N) (st : State) :
  sender msg = owner st -> ~ (1 <= id < nextCertificateId st) ->
  revokeCertificate msg id st = Reverted (Error "Invalid certificate ID") st.
Proof.
  intros Ho Hid.
  destruct (revokeCertificate_outcome msg id st); try done; lia.
Qed.

Lemma revokeCertificate_already_revoked (msg : Msg) (id : N) (st : State) :
  sender msg = owner st -> 1 <= id < nextCertificateId st ->
  isValid (certificateAt st id) = false ->
  revokeCertificate msg id st = Reverted (Error "Certificate is already revoked") st.
Proof.
  intros Ho Hid Hv.
  destruct (revokeCertificate_outcome msg id st); try done; try congruence; lia.
Qed.

Lemma revokeCertificate_returns (msg : Msg) (id : N) (st : State) :
  sender msg = owner st -> 1 <= id < nextCertificateId st ->
  isValid (certificateAt st id) = true ->
  revokeCertificate msg id st = Returned tt (revoke_post id st).
Proof.
  intros Ho Hid Hv.
  destruct (revokeCertificate_outcome msg id st); try done; try congruence; lia.
Qed.

(** C4. For the owner: [revokeCertificate(id)] fails with the not-found
    error when [id] is outside [1 <= id < nextCertificateId]; it fails with
    the already-revoked error, leaving [isValid] false, when the record's
    [isValid] is false; otherwise it goes through and sets that record's
    [isValid] to false, touching nothing else of the record. After a
    revocation that went through, whatever transactions follow, the record
    stays invalid and every further revocation of that id by the owner fails
    with the already-revoked error. *)
Theorem revoke_once (st : State) (msg : Msg) (id : N) :
  sender msg = owner st ->
  (~ (1 <= id < nextCertificateId st) ->
   call (revokeCertificate msg id) st = (st, inl (Error "Invalid certificate ID")) /\
   failsWith (call (revokeCertificate msg id) st) NotFoundError) /\
  (1 <= id < nextCertificateId st -> isValid (certificateAt st id) = false ->
   call (revokeCertificate msg id) st
   = (st, inl (Error "Certificate is already revoked")) /\
   failsWith (call (revokeCertificate msg id) st) AlreadyRevokedError) /\
  (1 <= id < nextCertificateId st -> isValid (certificateAt st id) = true ->
   exists st',
     call (revokeCertificate msg id) st = (st', inr tt) /\
     isValid (certificateAt st' id) = false /\
     sameContents (certificateAt st id) (certificateAt st' id) /\
     forall txs msg2, sender msg2 = owner st ->
       isValid (certificateAt (run st' txs) id) = false /\
       call (revokeCertificate msg2 id) (run st' txs)
       = (run st' txs, inl (Error "Certificate is already revoked")) /\
       failsWith (call (revokeCertificate msg2 id) (run st' txs)) AlreadyRevokedError).
Proof.
  intros Ho. split; [| split].
  - intros Hid.
    pose proof (revokeCertificate_invalid_id msg id st Ho Hid) as Hbody.
    pose proof (call_reverted _ _ _ _ Hbody) as Hcall.
    split; [done |]. unfold failsWith. by rewrite Hcall.
  - intros Hid Hv.
    pose proof (revokeCertificate_already_revoked msg id st Ho Hid Hv) as Hbody.
    pose proof (call_reverted _ _ _ _ Hbody) as Hcall.
    split; [done |]. unfold failsWith. by rewrite Hcall.
  - intros Hid Hv. exists (revoke_post id st).
    assert (Hnow : isValid (certificateAt (revoke_post id st) id) = false).
    { by rewrite certificateAt_revoke_post, decide_True. }
    split; [| split; [done | split]].
    + apply call_returned. by apply revokeCertificate_returns.
    + rewrite certificateAt_revoke_post, decide_True by done. by cbn.
    + intros txs msg2 Ho2.
      assert (Hlt : id < nextCertificateId (revoke_post id st)) by (cbn; lia).
      assert (Hlater : isValid (certificateAt (run (revoke_post id st) txs) id) = false).
      { destruct (record_run (revoke_post id st) txs id Hlt) as [_ Hmono].
        destruct (isValid (certificateAt (run (revoke_post id st) txs) id));
          [| done]. rewrite Hmono in Hnow; done. }
      pose proof (nextCertificateId_run_le (revoke_post id st) txs) as Hle.
      cbn [revoke_post nextCertificateId] in Hle.
      assert (Ho3 : sender msg2 = owner (run (revoke_post id st) txs)).
      { by rewrite owner_run. }
      assert (Hid3 : 1 <= id < nextCertificateId (run (revoke_post id st) txs)) by lia.
      pose proof (revokeCertificate_already_revoked msg2 id _ Ho3 Hid3 Hlater) as Hbody.
      pose proof (call_reverted _ _ _ _ Hbody) as Hcall.
      split; [done | split; [done |]]. unfold failsWith. by rewrite Hcall.
Qed.

Lemma revoke_once_demo :
  exists st',
    call (revokeCertificate alice 1)
         (issue_post alice "Alice" "Contest2024" "aaa111" (constructor alice))
    = (st', inr tt) /\
    isValid (certificateAt st' 1) = false /\
    call (revokeCertificate alice 1) st'
    = (st', inl (Error "Certificate is already revoked")).
Proof.
  destruct (revoke_once
              (issue_post alice "Alice" "Contest2024" "aaa111" (constructor alice))
              alice 1 eq_refl) as (_ & _ & Hok).
  destruct Hok as (st' & Hcall & Hv & _ & Hlater).
  - cbn. lia.
  - reflexivity.
  - exists st'. split; [done | split; [done |]].
    apply (Hlater [] alice). reflexivity.
Defined.

(** ** Lookups *)

Lemma lookup_by_id_found (st : State) (i : N) :
  1 <= i < nextCertificateId st ->
  call (verifyCertificateById i) st
  = (st, inr (mkById true (participantName (certificateAt st i))
                     (eventName (certificateAt st i))
                     (certificateHash (certificateAt st i))
                     (timestamp (certificateAt st i))
                     (isValid (certificateAt st i)))) /\
  (i =? 0) || (nextCertificateId st <=? i) = false.
Proof.
  intros Hi.
  assert (Hb : (i =? 0) || (nextCertificateId st <=? i) = false).
  { apply orb_false_iff. split; [apply N.eqb_neq | apply N.leb_gt]; lia. }
  split; [| done].
  unfold call. rewrite verifyCertificateById_eq. by rewrite Hb.
Qed.

(** C5. [verifyCertificateById] always returns and never writes. For every
    [i] it returns the stored record, with [exists = true], exactly when
    [1 <= i < nextCertificateId], and the not-found tuple for every other
    [i], among them [0] and every [i >= nextCertificateId]. Along a run from
    deployment the ids in range are the ids that were issued, so an id never
    issued is reported not found. *)
Theorem lookup_by_id_total (st : State) (i : N) :
  (exists r, call (verifyCertificateById i) st = (st, inr r) /\
             (bi_exists r = true <-> 1 <= i < nextCertificateId st)) /\
  (1 <= i < nextCertificateId st ->
   call (verifyCertificateById i) st
   = (st, inr (mkById true (participantName (certificateAt st i))
                      (eventName (certificateAt st i))
                      (certificateHash (certificateAt st i))
                      (timestamp (certificateAt st i))
                      (isValid (certificateAt st i))))) /\
  (i = 0 \/ nextCertificateId st <= i ->
   call (verifyCertificateById i) st = (st, inr (mkById false "" "" "" 0 false))) /\
  (forall msg txs,
     st = run (constructor msg) txs ->
     (i ∈ issuedIds (constructor msg) txs <-> 1 <= i < nextCertificateId st) /\
     (i ∉ issuedIds (constructor msg) txs ->
      call (verifyCertificateById i) st = (st, inr (mkById false "" "" "" 0 false)))).
Proof.
  assert (Hin : 1 <= i < nextCertificateId st ->
                (i =? 0) || (nextCertificateId st <=? i) = false).
  { intros Hi. apply orb_false_iff. split; [apply N.eqb_neq | apply N.leb_gt]; lia. }
  assert (Hout : i = 0 \/ nextCertificateId st <= i ->
                 (i =? 0) || (nextCertificateId st <=? i) = true).
  { intros Hi. apply orb_true_iff.
    destruct Hi; [left; apply N.eqb_eq | right; apply N.leb_le]; lia. }
  assert (Hcases : 1 <= i < nextCertificateId st \/ (i = 0 \/ nextCertificateId st <= i))
    by lia.
  split; [| split; [| split]].
  - unfold call. rewrite verifyCertificateById_eq. eexists. split; [reflexivity |].
    destruct Hcases as [Hi | Hi].
    + rewrite (Hin Hi). cbn. tauto.
    + rewrite (Hout Hi). cbn. split; [done | lia].
  - intros Hi. unfold call. rewrite verifyCertificateById_eq. by rewrite (Hin Hi).
  - intros Hi. unfold call. rewrite verifyCertificateById_eq. by rewrite (Hout Hi).
  - intros msg txs ->.
    destruct (issuedIds_run (constructor msg) txs) as [Hids Hnext].
    cbn [constructor nextCertificateId] in Hids, Hnext.
    assert (Hiff : i ∈ issuedIds (constructor msg) txs
                   <-> 1 <= i < nextCertificateId (run (constructor msg) txs)).
    { rewrite Hids at 1. rewrite elem_of_countFrom, Hnext. lia. }
    split; [done |]. intros Hni.
    unfold call. rewrite verifyCertificateById_eq.
    destruct ((i =? 0) || (nextCertificateId (run (constructor msg) txs) <=? i)) eqn:Hb;
      [done |].
    exfalso. apply Hni, Hiff. apply orb_false_iff in Hb as [H0 H1].
    apply N.eqb_neq in H0. apply N.leb_gt in H1. lia.
Qed.

Lemma lookup_by_id_total_demo :
  call (verifyCertificateById 1)
       (issue_post alice "Alice" "Contest2024" "aaa111" (constructor alice))
  = (issue_post alice "Alice" "Contest2024" "aaa111" (constructor alice),
     inr (mkById true "Alice" "Contest2024" "aaa111" 1700000000 true)) /\
  call (verifyCertificateById 0)
       (issue_post alice "Alice" "Contest2024" "aaa111" (constructor alice))
  = (issue_post alice "Alice" "Contest2024" "aaa111" (constructor alice),
     inr (mkById false "" "" "" 0 false)) /\
  call (verifyCertificateById 2)
       (issue_post alice "Alice" "Contest2024" "aaa111" (constructor alice))
  = (issue_post alice "Alice" "Contest2024" "aaa111" (constructor alice),
     inr (mkById false "" "" "" 0 false)).
Proof.
  split; [| split].
  - apply (lookup_by_id_total
             (issue_post alice "Alice" "Contest2024" "aaa111" (constructor alice)) 1).
    cbn. lia.
  - apply (lookup_by_id_total
             (issue_post alice "Alice" "Contest2024" "aaa111" (constructor alice)) 0).
    by left.
  - apply (lookup_by_id_total
             (issue_post alice "Alice" "Contest2024" "aaa111" (constructor alice)) 2).
    right. cbn. lia.
Defined.

Lemma idOfHash_in_range (st : State) (h : string) :
  Inv st -> idOfHash st h <> 0 -> 1 <= idOfHash st h < nextCertificateId st.
Proof.
  intros HI Hne. pose proof (inv_index_range st HI h). lia.
Qed.

Lemma lookup_by_hash_found (st : State) (h : string) :
  idOfHash st h <> 0 ->
  call (verifyCertificateByHash h) st
  = (st, inr (mkByHash true (idOfHash st h)
                       (participantName (certificateAt st (idOfHash st h)))
                       (eventName (certificateAt st (idOfHash st h)))
                       (timestamp (certificateAt st (idOfHash st h)))
                       (isValid (certificateAt st (idOfHash st h))))).
Proof.
  intros Hne. unfold call. rewrite verifyCertificateByHash_eq.
  apply N.eqb_neq in Hne. by rewrite Hne.
Qed.

Lemma lookup_by_hash_missing (st : State) (h : string) :
  idOfHash st h = 0 ->
  call (verifyCertificateByHash h) st = (st, inr (mkByHash false 0 "" "" 0 false)).
Proof.
  intros H0. unfold call. rewrite verifyCertificateByHash_eq. by rewrite H0.
Qed.

Lemma lookup_by_id_missing (st : State) (i : N) :
  ~ (1 <= i < nextCertificateId st) ->
  call (verifyCertificateById i) st = (st, inr (mkById false "" "" "" 0 false)).
Proof.
  intros Hi. unfold call. rewrite verifyCertificateById_eq.
  assert (Hb : (i =? 0) || (nextCertificateId st <=? i) = true).
  { apply orb_true_iff.
    destruct (N.eq_dec i 0) as [-> | Hne]; [by left |].
    right. apply N.leb_le. lia. }
  by rewrite Hb.
Qed.


Lemma getVerify_found (rt : Runtime) (wallet : N) (h : string) (st : State) :
  h <> "" -> idOfHash st h <> 0 ->
  timestamp (certificateAt st (idOfHash st h)) <= MAX_DATE_SECONDS ->
  getVerify rt (Some wallet) h st
  = mkResponse 200
      (JObject
         [("success", JBool true);
          ("verified", JBool true);
          ("data",
           JObject
             [("certificateId", JString (pretty (idOfHash st h)));
              ("participantName",
               JString (participantName (certificateAt st (idOfHash st h))));
              ("eventName", JString (eventName (certificateAt st (idOfHash st h))));
              ("timestamp",
               JString (isoString rt (timestamp (certificateAt st (idOfHash st h)))));
              ("isValid", JBool (isValid (certificateAt st (idOfHash st h))));
              ("certificateHash", JString h)]);
          ("message",
           JString (verifyMessage true (isValid (certificateAt st (idOfHash st h)))))]).
Proof.
  intros Hh Hne Hts. apply nonempty_true in Hh.
  unfold getVerify, BlockchainService_verifyCertificateByHash.
  rewrite Hh, (lookup_by_hash_found st h Hne).
  cbn [negb bh_exists bh_timestamp bh_certificateId bh_participantName
       bh_eventName bh_isValid].
  unfold toISOString.
  destruct (N.leb_spec (timestamp (certificateAt st (idOfHash st h))) MAX_DATE_SECONDS);
    [reflexivity | lia].
Qed.

Lemma getVerify_beyond (rt : Runtime) (wallet : N) (h : string) (st : State) :
  h <> "" -> idOfHash st h <> 0 ->
  MAX_DATE_SECONDS < timestamp (certificateAt st (idOfHash st h)) ->
  getVerify rt (Some wallet) h st
  = mkResponse 500
      (JObject [("success", JBool false);
                ("error", JString "Failed to verify certificate");
                ("message", JString (invalidTimeMessage rt))]).
Proof.
  intros Hh Hne Hts. apply nonempty_true in Hh.
  unfold getVerify, BlockchainService_verifyCertificateByHash.
  rewrite Hh, (lookup_by_hash_found st h Hne).
  cbn [negb bh_exists bh_timestamp].
  unfold toISOString.
  destruct (N.leb_spec (timestamp (certificateAt st (idOfHash st h))) MAX_DATE_SECONDS);
    [lia | reflexivity].
Qed.





(** ** The counter *)

Lemma transact_issue_value (msg : Msg) (p e h : string) (st : State) (v : Value) :
  snd (transact st (msg, IssueCertificate p e h)) = inr v ->
  v = VId (nextCertificateId st).
Proof.
  unfold transact, call, dispatch. cbn [fst snd]. unfold bind at 1.
  destruct (issueCertificate_outcome msg p e h st); cbn; intros [=]; done.
Qed.

Lemma issuance_only_issue (st : State) (tx : Tx) :
  issuance (snd (transact st tx)) = true ->
  exists p e h, snd tx = IssueCertificate p e h.
Proof.
  destruct (transact_effect st tx) as [p e h Htx | id Htx | out Hout]; cbn [snd].
  - eauto.
  - done.
  - destruct out as [r | [id | | | |]]; try done. by destruct (Hout id).
Qed.

Lemma successfulIssues_length (st : State) (txs : list Tx) :
  successfulIssues st txs = length (issuedIds st txs).
Proof.
  revert st. induction txs as [| tx txs IH]; intros st; [done |].
  rewrite issuedIds_cons. cbn [successfulIssues]. rewrite IH.
  destruct (issuance (snd (transact st tx))) eqn:Hiss.
  - destruct (issuance_only_issue st tx Hiss) as (p & e & h & ->).
    by destruct (snd (transact st tx)).
  - destruct tx as [msg c]. destruct c as [p e h | | | |]; cbn [snd]; try done.
    destruct (snd (transact st (msg, IssueCertificate p e h))) as [r | v] eqn:Hout;
      [done |].
    apply transact_issue_value in Hout as ->. done.
Qed.

(** C7. After any sequence of transactions following deployment,
    [getTotalCertificates] returns [nextCertificateId - 1], and that value is
    the number of [issueCertificate] calls that went through; a revocation,
    whether it goes through or not, leaves the value as it was. *)
Theorem total_counts_issuances (msg : Msg) (txs : list Tx) :
  call getTotalCertificates (run (constructor msg) txs)
  = (run (constructor msg) txs,
     inr (nextCertificateId (run (constructor msg) txs) - 1)) /\
  nextCertificateId (run (constructor msg) txs) - 1
  = N.of_nat (successfulIssues (constructor msg) txs) /\
  (forall msg' id,
     call getTotalCertificates
          (step (run (constructor msg) txs) (msg', RevokeCertificate id))
     = (step (run (constructor msg) txs) (msg', RevokeCertificate id),
        inr (N.of_nat (successfulIssues (constructor msg) txs)))).
Proof.
  destruct (issuedIds_run (constructor msg) txs) as [_ Hnext].
  cbn [constructor nextCertificateId] in Hnext.
  rewrite successfulIssues_length.
  split; [| split].
  - apply getTotalCertificates_call. lia.
  - lia.
  - intros msg' id.
    pose proof (nextCertificateId_step (run (constructor msg) txs)
                  (msg', RevokeCertificate id)) as Hstep.
    destruct (issuance _) eqn:Hiss in Hstep.
    { apply issuance_only_issue in Hiss as (p & e & h & Habs). done. }
    rewrite getTotalCertificates_call; rewrite Hstep; [| lia].
    do 2 f_equal. lia.
Qed.

(** C8. [nextCertificateId] is 1 at deployment. A transaction raises it by
    one when it is an issuance that goes through and leaves it alone
    otherwise. So along any run from deployment the ids handed out are
    [1, 2, ..., n] in this order, [n] the number of issuances that went
    through; the counter then holds [n + 1], above every id handed out; [0]
    is never handed out and no id is handed out twice, whatever revocations
    happened in between. *)
Theorem ids_sequential (msg : Msg) (txs : list Tx) :
  nextCertificateId (constructor msg) = 1 /\
  (forall st tx,
     nextCertificateId (step st tx)
     = (if issuance (snd (transact st tx)) then nextCertificateId st + 1
        else nextCertificateId st)) /\
  (forall st tx,
     issuance (snd (transact st tx)) = true <->
     exists p e h, snd tx = IssueCertificate p e h /\
                   snd (transact st tx) = inr (VId (nextCertificateId st))) /\
  issuedIds (constructor msg) txs
  = countFrom 1 (successfulIssues (constructor msg) txs) /\
  nextCertificateId (run (constructor msg) txs)
  = 1 + N.of_nat (successfulIssues (constructor msg) txs) /\
  (forall id, id ∈ issuedIds (constructor msg) txs ->
              1 <= id < nextCertificateId (run (constructor msg) txs)) /\
  (0 ∉ issuedIds (constructor msg) txs) /\
  NoDup (issuedIds (constructor msg) txs).
Proof.
  destruct (issuedIds_run (constructor msg) txs) as [Hids Hnext].
  cbn [constructor nextCertificateId] in Hids, Hnext.
  rewrite successfulIssues_length.
  split; [done |]. split; [apply nextCertificateId_step |].
  split; [| split; [done | split; [done | split; [| split]]]].
  - intros st tx. split.
    + intros Hiss. destruct (issuance_only_issue st tx Hiss) as (p & e & h & Htx).
      exists p, e, h. split; [done |].
      destruct tx as [m c]. cbn [snd] in Htx. subst c.
      destruct (snd (transact st (m, IssueCertificate p e h))) as [r | v] eqn:Hout;
        [done |].
      by apply transact_issue_value in Hout as ->.
    + intros (p & e & h & _ & ->). done.
  - intros id Hin. rewrite Hids in Hin. apply elem_of_countFrom in Hin. lia.
  - intros Hin. rewrite Hids in Hin. apply elem_of_countFrom in Hin. lia.
  - rewrite Hids. apply NoDup_countFrom.
Qed.

(** ** Validity over time *)

(** C9. A record is created with [isValid = true]: in any state, the
    first certificate included, an issuance that goes through returns the
    id the counter held and leaves [certificates[id]] valid and below the
    counter. From then on, whatever transactions run, a record below the
    counter stays in the registry ([verifyCertificateById] keeps finding
    it, with the same participant, event, hash and timestamp) and its
    [isValid] never goes from false to true. Within one transaction
    [isValid] can only change from true to false, and only when the
    transaction is a revocation of that id that goes through; once false it
    is false after every later run, so the change happens at most once. *)
Theorem validity_only_decreases (st : State) :
  (forall msg p e h st' id',
     call (issueCertificate msg p e h) st = (st', inr id') ->
     id' = nextCertificateId st /\
     isValid (certificateAt st' id') = true /\
     id' < nextCertificateId st' /\
     forall txs,
       id' < nextCertificateId (run st' txs) /\
       sameContents (certificateAt st' id') (certificateAt (run st' txs) id') /\
       (forall txs',
          isValid (certificateAt (run st' txs) id') = false ->
          isValid (certificateAt (run (run st' txs) txs') id') = false)) /\
  (forall id tx,
     1 <= id < nextCertificateId st ->
     isValid (certificateAt (step st tx) id) <> isValid (certificateAt st id) ->
     isValid (certificateAt st id) = true /\
     isValid (certificateAt (step st tx) id) = false /\
     snd tx = RevokeCertificate id /\
     snd (transact st tx) = inr VUnit) /\
  (forall id txs,
     1 <= id < nextCertificateId st ->
     1 <= id < nextCertificateId (run st txs) /\
     sameContents (certificateAt st id) (certificateAt (run st txs) id) /\
     (exists r, call (verifyCertificateById id) (run st txs) = (run st txs, inr r) /\
                bi_exists r = true /\
                bi_isValid r = isValid (certificateAt (run st txs) id)) /\
     (isValid (certificateAt (run st txs) id) = true ->
      isValid (certificateAt st id) = true) /\
     (isValid (certificateAt st id) = false ->
      isValid (certificateAt (run st txs) id) = false)).
Proof.
  split; [| split].
  - intros msg p e h st' id' Hcall.
    apply issueCertificate_returned_inv in Hcall
      as (Ho & Hp & He & Hh & Hk & Hn & -> & ->).
    assert (Hlt : nextCertificateId st
                  < nextCertificateId (issue_post msg p e h st)).
    { cbn [issue_post nextCertificateId]. lia. }
    split; [done |]. split.
    { rewrite certificateAt_issue_post, decide_True by done. done. }
    split; [done |]. intros txs.
    pose proof (nextCertificateId_run_le (issue_post msg p e h st) txs) as Hle.
    destruct (record_run (issue_post msg p e h st) txs _ Hlt) as [Hsame _].
    split; [lia | split; [done |]].
    intros txs' Hf.
    assert (Hlt' : nextCertificateId st
                   < nextCertificateId (run (issue_post msg p e h st) txs)) by lia.
    destruct (record_run (run (issue_post msg p e h st) txs) txs' _ Hlt')
      as [_ Hmono].
    destruct (isValid (certificateAt
                         (run (run (issue_post msg p e h st) txs) txs')
                         (nextCertificateId st))); [| done].
    rewrite Hmono in Hf; done.
  - intros id tx Hid. apply isValid_change. lia.
  - intros id txs Hid.
    assert (Hlt : id < nextCertificateId st) by lia.
    destruct (record_run st txs id Hlt) as [Hsame Hmono].
    pose proof (nextCertificateId_run_le st txs) as Hle.
    assert (Hid' : 1 <= id < nextCertificateId (run st txs)) by lia.
    split; [done | split; [done | split; [| split; [done |]]]].
    + destruct (lookup_by_id_found (run st txs) id Hid') as [Hcall _].
      eexists. split; [exact Hcall | done].
    + intros Hf. destruct (isValid (certificateAt (run st txs) id)); [| done].
      rewrite Hmono in Hf; done.
Qed.

Lemma validity_only_decreases_demo :
  isValid (certificateAt
             (issue_post alice "Alice" "Contest2024" "aaa111" (constructor alice)) 1)
  = true /\
  isValid (certificateAt
             (run (run (constructor alice) demo)
                  [(alice, IssueCertificate "Bob" "Contest2024" "bbb222");
                   (alice, RevokeCertificate 1)]) 1)
  = false.
Proof.
  split.
  - destruct (validity_only_decreases (constructor alice)) as (Hnew & _ & _).
    apply (Hnew alice "Alice" "Contest2024" "aaa111"
                (issue_post alice "Alice" "Contest2024" "aaa111" (constructor alice)) 1).
    reflexivity.
  - destruct (validity_only_decreases (run (constructor alice) demo))
      as (_ & _ & Hrun).
    destruct (Hrun 1 [(alice, IssueCertificate "Bob" "Contest2024" "bbb222");
                      (alice, RevokeCertificate 1)])
      as (_ & _ & _ & _ & Hstay).
    + split; [lia | reflexivity].
    + apply Hstay. reflexivity.
Defined.

(** ** Hashes are registered once *)

(** C10. Revocation does not free a hash. In a reachable state, after a
    revocation of record [id] that went through, the hash index is what it
    was, it still maps the record's hash to [id], and, whatever transactions
    follow, an issuance by the owner of that same hash fails with the
    duplicate-hash error. Over any run from deployment the hashes of the
    issuances that went through are pairwise different: a content hash is
    registered at most once. *)
Theorem revoked_hash_stays_taken (st : State) (msg : Msg) (id : N) :
  reachable st ->
  (forall st1,
     call (revokeCertificate msg id) st = (st1, inr tt) ->
     hashToCertificateId st1 = hashToCertificateId st /\
     idOfHash st1 (certificateHash (certificateAt st id)) = id /\
     id <> 0 /\
     forall txs msg2 p e,
       sender msg2 = owner st -> p <> "" -> e <> "" ->
       call (issueCertificate msg2 p e (certificateHash (certificateAt st id)))
            (run st1 txs)
       = (run st1 txs, inl (Error "Certificate with this hash already exists")) /\
       failsWith
         (call (issueCertificate msg2 p e (certificateHash (certificateAt st id)))
               (run st1 txs))
         DuplicateHashError) /\
  (forall msg0 txs, NoDup (issuedHashes (constructor msg0) txs)).
Proof.
  intros Hr. split.
  - intros st1 Hcall.
    apply revokeCertificate_returned_inv in Hcall as (Ho & Hid & Hv & ->).
    pose proof (Inv_reachable st Hr) as HI.
    pose proof (inv_record_index st HI id Hid) as Hidx.
    destruct (inv_record_fields st HI id Hid) as (_ & _ & Hh).
    split; [done | split; [done | split; [lia |]]].
    intros txs msg2 p e Ho2 Hp He.
    set (h := certificateHash (certificateAt st id)) in *.
    assert (Hk : idOfHash (run (revoke_post id st) txs) h <> 0).
    { rewrite idOfHash_run; rewrite idOfHash_revoke_post; lia. }
    assert (Ho3 : sender msg2 = owner (run (revoke_post id st) txs)).
    { by rewrite owner_run. }
    pose proof (issueCertificate_duplicate msg2 p e h _ Ho3 Hp He Hh Hk) as Hbody.
    pose proof (call_reverted _ _ _ _ Hbody) as Hcall.
    split; [done |]. unfold failsWith. by rewrite Hcall.
  - intros msg0 txs.
    apply (issuedHashes_fresh (constructor msg0) txs). cbn. lia.
Qed.

Lemma revoked_hash_stays_taken_demo :
  call (issueCertificate alice "Bob" "Contest2024" "aaa111")
       (run (constructor alice) demo)
  = (run (constructor alice) demo,
     inl (Error "Certificate with this hash already exists")).
Proof.
  assert (Hr : reachable
                 (issue_post alice "Alice" "Contest2024" "aaa111" (constructor alice))).
  { apply (reachable_step (constructor alice)
             (alice, IssueCertificate "Alice" "Contest2024" "aaa111")).
    apply reachable_deploy. }
  destruct (revoked_hash_stays_taken _ alice 1 Hr) as [Hrev _].
  destruct (Hrev (run (constructor alice) demo) eq_refl) as (_ & _ & _ & Hlater).
  apply (Hlater [] alice "Bob" "Contest2024"); [reflexivity | discriminate | discriminate].
Defined.

(** * Further properties of the contract *)

(** ** The two lookups *)

(** X1. In a reachable state the two lookups agree. A record that
    [verifyCertificateById(i)] finds is found by [verifyCertificateByHash] of
    its hash, under the id [i] and with the same participant, event,
    timestamp and validity; a record that [verifyCertificateByHash(h)] finds
    is found by [verifyCertificateById] of the id it reports, with hash [h]
    and the same other fields. *)
Theorem lookups_agree (st : State) :
  reachable st ->
  (forall i r,
     call (verifyCertificateById i) st = (st, inr r) -> bi_exists r = true ->
     call (verifyCertificateByHash (bi_certificateHash r)) st
     = (st, inr (mkByHash true i (bi_participantName r) (bi_eventName r)
                          (bi_timestamp r) (bi_isValid r)))) /\
  (forall h r,
     call (verifyCertificateByHash h) st = (st, inr r) -> bh_exists r = true ->
     call (verifyCertificateById (bh_certificateId r)) st
     = (st, inr (mkById true (bh_participantName r) (bh_eventName r) h
                        (bh_timestamp r) (bh_isValid r)))).
Proof.
  intros Hr. pose proof (Inv_reachable st Hr) as HI. split.
  - intros i r Hcall Hex.
    destruct (decide (1 <= i < nextCertificateId st)) as [Hi | Hi].
    + destruct (lookup_by_id_found st i Hi) as [Hfound _].
      rewrite Hfound in Hcall. injection Hcall as <-. cbn.
      assert (Hidx : idOfHash st (certificateHash (certificateAt st i)) = i).
      { apply (inv_record_index st HI). lia. }
      rewrite lookup_by_hash_found; rewrite Hidx; [done | lia].
    + rewrite (lookup_by_id_missing st i Hi) in Hcall.
      injection Hcall as <-. done.
  - intros h r Hcall Hex.
    destruct (N.eq_dec (idOfHash st h) 0) as [H0 | Hne].
    + rewrite (lookup_by_hash_missing st h H0) in Hcall.
      injection Hcall as <-. done.
    + rewrite (lookup_by_hash_found st h Hne) in Hcall.
      injection Hcall as <-. cbn.
      pose proof (idOfHash_in_range st h HI Hne) as Hrange.
      destruct (lookup_by_id_found st _ Hrange) as [Hfound _].
      rewrite Hfound. by rewrite (inv_index_hash st HI h Hne).
Qed.

Lemma demo_reachable : reachable (run (constructor alice) demo).
Proof. apply reachable_run, reachable_deploy. Qed.

Lemma lookups_agree_demo :
  call (verifyCertificateByHash "aaa111") (run (constructor alice) demo)
  = (run (constructor alice) demo,
     inr (mkByHash true 1 "Alice" "Contest2024" 1700000000 false)).
Proof.
  destruct (lookups_agree (run (constructor alice) demo) demo_reachable) as [Hid _].
  apply (Hid 1 (mkById true "Alice" "Contest2024" "aaa111" 1700000000 false));
    reflexivity.
Defined.

(** X2. In a reachable state no two records carry the same content hash:
    the records of two different ids in [1 <= id < nextCertificateId] have
    different [certificateHash]. *)
Theorem hashes_unique (st : State) (i j : N) :
  reachable st ->
  1 <= i < nextCertificateId st -> 1 <= j < nextCertificateId st ->
  i <> j ->
  certificateHash (certificateAt st i) <> certificateHash (certificateAt st j).
Proof.
  intros Hr Hi Hj Hne Heq. pose proof (Inv_reachable st Hr) as HI.
  assert (Hi' : 0 < i < nextCertificateId st) by lia.
  assert (Hj' : 0 < j < nextCertificateId st) by lia.
  apply Hne.
  rewrite <- (inv_record_index st HI i Hi'), <- (inv_record_index st HI j Hj').
  by rewrite Heq.
Qed.

Lemma twoIssued_reachable : reachable twoIssued.
Proof. apply reachable_run, reachable_deploy. Qed.

Lemma hashes_unique_demo :
  certificateHash (certificateAt twoIssued 1) <> certificateHash (certificateAt twoIssued 2) /\
  certificateHash (certificateAt twoIssued 2) <> certificateHash (certificateAt twoIssued 1).
Proof.
  split; apply (hashes_unique twoIssued _ _ twoIssued_reachable);
    first [ discriminate | split; [lia | reflexivity] ].
Defined.

(** ** Storage outside the issued range *)

Lemma storage_allocated (st : State) :
  reachable st ->
  (forall id c, certificates st !! id = Some c -> 1 <= id < nextCertificateId st) /\
  (forall h i, hashToCertificateId st !! h = Some i -> 1 <= i < nextCertificateId st).
Proof.
  induction 1 as [msg | st tx Hr [IHc IHh]].
  - split; intros ? ?; cbn; by rewrite lookup_empty.
  - pose proof (inv_next st (Inv_reachable st Hr)) as Hnext.
    unfold step.
    destruct (transact_effect st tx) as [p e h | id Htx Ho Hid Hv | out]; cbn [fst].
    + split.
      * intros id c. cbn [issue_post certificates nextCertificateId].
        destruct (decide (id = nextCertificateId st)) as [-> | Hne].
        -- intros _. lia.
        -- rewrite lookup_insert_ne by done. intros Hc.
           specialize (IHc id c Hc). lia.
      * intros h' i. cbn [issue_post hashToCertificateId nextCertificateId].
        destruct (decide (h' = h)) as [-> | Hne].
        -- rewrite lookup_insert_eq. intros [= <-]. lia.
        -- rewrite lookup_insert_ne by done. intros Hi.
           specialize (IHh h' i Hi). lia.
    + split.
      * intros id' c. cbn [revoke_post certificates nextCertificateId].
        destruct (decide (id' = id)) as [-> | Hne].
        -- intros _. lia.
        -- rewrite lookup_insert_ne by done. apply IHc.
      * intros h' i. cbn [revoke_post hashToCertificateId nextCertificateId].
        apply IHh.
    + by split.
Qed.

(** X3. In a reachable state nothing is stored outside the issued range:
    [certificates] has no entry at [0] nor at any id [>= nextCertificateId],
    so the public getter reads the all-zero record there; every id stored in
    [hashToCertificateId] lies in [1 <= id < nextCertificateId]; and a hash
    reads as id [0] exactly when it has no entry. *)
Theorem unissued_storage_is_zero (st : State) :
  reachable st ->
  (forall id, ~ (1 <= id < nextCertificateId st) ->
              certificates st !! id = None /\ certificateAt st id = zeroCertificate) /\
  (forall h i, hashToCertificateId st !! h = Some i ->
               1 <= i < nextCertificateId st) /\
  (forall h, idOfHash st h = 0 <-> hashToCertificateId st !! h = None).
Proof.
  intros Hr. destruct (storage_allocated st Hr) as [Hc Hh].
  split; [| split; [done |]].
  - intros id Hid.
    assert (Hnone : certificates st !! id = None).
    { destruct (certificates st !! id) as [c |] eqn:Hl; [| done].
      destruct (Hid (Hc id c Hl)). }
    split; [done |]. unfold certificateAt. by rewrite Hnone.
  - intros h. unfold idOfHash.
    destruct (hashToCertificateId st !! h) as [i |] eqn:Hl; cbn.
    + specialize (Hh h i Hl). split; [lia | done].
    + done.
Qed.

Lemma unissued_storage_is_zero_demo :
  certificateAt (run (constructor alice) demo) 0 = zeroCertificate /\
  certificateAt (run (constructor alice) demo) 2 = zeroCertificate.
Proof.
  destruct (unissued_storage_is_zero _ demo_reachable) as [Hzero _].
  split.
  - apply (Hzero 0). lia.
  - apply (Hzero 2). intros [_ Hlt]. vm_compute in Hlt. discriminate.
Defined.

(** ** The owner *)

(** X4. The owner is the deployer, for good: after any sequence of
    transactions following deployment [owner] is the address that deployed,
    and an [issueCertificate] or [revokeCertificate] sent from any other
    address fails with "Only owner can call this function" and changes
    nothing. The contract has no way to hand ownership over. *)
Theorem owner_is_deployer (msg : Msg) (txs : list Tx) (other : Msg) :
  sender other <> sender msg ->
  owner (run (constructor msg) txs) = sender msg /\
  (forall p e h,
     transact (run (constructor msg) txs) (other, IssueCertificate p e h)
     = (run (constructor msg) txs, inl (Error "Only owner can call this function"))) /\
  (forall id,
     transact (run (constructor msg) txs) (other, RevokeCertificate id)
     = (run (constructor msg) txs, inl (Error "Only owner can call this function"))).
Proof.
  intros Hne.
  assert (Ho : owner (run (constructor msg) txs) = sender msg) by apply owner_run.
  assert (Hne' : sender other <> owner (run (constructor msg) txs)) by by rewrite Ho.
  split; [done | split].
  - intros p e h. unfold transact, call, dispatch. cbn [fst snd]. unfold bind at 1.
    by destruct (issueCertificate_outcome other p e h (run (constructor msg) txs)).
  - intros id. unfold transact, call, dispatch. cbn [fst snd]. unfold bind at 1.
    by destruct (revokeCertificate_outcome other id (run (constructor msg) txs)).
Qed.

Lemma owner_is_deployer_demo :
  owner (run (constructor alice) demo) = 7 /\
  transact (run (constructor alice) demo) (mallory, RevokeCertificate 1)
  = (run (constructor alice) demo, inl (Error "Only owner can call this function")).
Proof.
  destruct (owner_is_deployer alice demo mallory) as (Ho & _ & Hrev).
  - discriminate.
  - split; [exact Ho | exact (Hrev 1)].
Defined.

(** ** The event log *)

Lemma countFrom_snoc (a : N) (n : nat) :
  countFrom a (S n) = countFrom a n ++ [a + N.of_nat n].
Proof. unfold countFrom. by rewrite seq_S, map_app. Qed.

Lemma length_countFrom (a : N) (n : nat) : length (countFrom a n) = n.
Proof. unfold countFrom. by rewrite length_map, length_seq. Qed.

Lemma issuedLog_issue_post (msg : Msg) (p e h : string) (st : State) :
  issuedLog (issue_post msg p e h st)
  = issuedLog st ++ [(nextCertificateId st, p, e, h)].
Proof. unfold issuedLog. cbn [issue_post events]. by rewrite omap_app. Qed.

Lemma issuedLog_revoke_post (id : N) (st : State) :
  issuedLog (revoke_post id st) = issuedLog st.
Proof.
  unfold issuedLog. cbn [revoke_post events]. rewrite omap_app. cbn.
  by rewrite app_nil_r.
Qed.

Lemma revokedLog_issue_post (msg : Msg) (p e h : string) (st : State) :
  revokedLog (issue_post msg p e h st) = revokedLog st.
Proof.
  unfold revokedLog. cbn [issue_post events]. rewrite omap_app. cbn.
  by rewrite app_nil_r.
Qed.

Lemma revokedLog_revoke_post (id : N) (st : State) :
  revokedLog (revoke_post id st) = revokedLog st ++ [id].
Proof. unfold revokedLog. cbn [revoke_post events]. by rewrite omap_app. Qed.

Lemma logEntry_revoke_post (id id' : N) (st : State) :
  logEntry (revoke_post id st) id' = logEntry st id'.
Proof.
  unfold logEntry. rewrite certificateAt_revoke_post.
  case_decide as Heq; [by subst id' | done].
Qed.

(** X5. In a reachable state the [CertificateIssued] entries of the log
    are, in order, one per id [1, 2, ..., nextCertificateId - 1], each
    carrying the participant, event and hash that [certificates[id]] holds
    now: the log and the storage tell the same history of issuances. *)
Theorem issued_log_matches_records (st : State) :
  reachable st ->
  issuedLog st
  = map (logEntry st) (countFrom 1 (N.to_nat (nextCertificateId st - 1))).
Proof.
  induction 1 as [msg | st tx Hr IH].
  - reflexivity.
  - pose proof (inv_next st (Inv_reachable st Hr)) as Hnext.
    unfold step.
    destruct (transact_effect st tx) as [p e h | id Htx Ho Hid Hv | out]; cbn [fst].
    + rewrite issuedLog_issue_post, IH. cbn [issue_post nextCertificateId].
      replace (N.to_nat (nextCertificateId st + 1 - 1))
        with (S (N.to_nat (nextCertificateId st - 1))) by lia.
      rewrite countFrom_snoc, map_app. cbn [map]. f_equal.
      * apply map_ext_in. intros i Hi.
        apply list_elem_of_In, elem_of_countFrom in Hi.
        unfold logEntry. rewrite certificateAt_issue_post.
        rewrite decide_False by lia. done.
      * unfold logEntry. rewrite certificateAt_issue_post.
        rewrite decide_True by lia. cbn. do 4 f_equal. lia.
    + rewrite issuedLog_revoke_post, IH. cbn [revoke_post nextCertificateId].
      apply map_ext. intros i. by rewrite logEntry_revoke_post.
    + done.
Qed.

Lemma issued_log_matches_records_demo :
  issuedLog twoIssued = [logEntry twoIssued 1; logEntry twoIssued 2].
Proof. exact (issued_log_matches_records twoIssued twoIssued_reachable). Defined.

(** X6. In a reachable state the [CertificateRevoked] entries of the log
    name exactly the records that are invalid now, each once: an id is in
    the log if and only if it lies in [1 <= id < nextCertificateId] and its
    record has [isValid = false]. Hence the number of valid records plus
    the number of revocations in the log is the number of certificates
    issued. *)
Theorem revoked_log_matches_validity (st : State) :
  reachable st ->
  NoDup (revokedLog st) /\
  (forall id, id ∈ revokedLog st <->
              1 <= id < nextCertificateId st /\
              isValid (certificateAt st id) = false) /\
  (length (validIds st) + length (revokedLog st))%nat
  = N.to_nat (nextCertificateId st - 1).
Proof.
  intros Hr.
  assert (Hlog : NoDup (revokedLog st) /\
                 forall id, id ∈ revokedLog st <->
                            1 <= id < nextCertificateId st /\
                            isValid (certificateAt st id) = false).
  { induction Hr as [msg | st tx Hr [IHnd IHin]].
    - split; [constructor |]. intros id. cbn. rewrite elem_of_nil. lia.
    - unfold step.
      destruct (transact_effect st tx) as [p e h | id' Htx Ho Hid Hv | out]; cbn [fst].
      + rewrite revokedLog_issue_post. split; [done |].
        intros id. rewrite IHin, certificateAt_issue_post.
        cbn [issue_post nextCertificateId]. case_decide as Heq.
        * subst id. cbn. split; [lia | intros [_ Hf]; done].
        * split; intros [Hrange Hf]; (split; [lia | done]).
      + rewrite revokedLog_revoke_post. split.
        * apply NoDup_app. split; [done |]. split; [| apply NoDup_singleton].
          intros id Hin Hin'. apply list_elem_of_singleton in Hin'. subst id'.
          apply IHin in Hin as [_ Hf]. congruence.
        * intros id. rewrite elem_of_app, list_elem_of_singleton, IHin.
          rewrite certificateAt_revoke_post. cbn [revoke_post nextCertificateId].
          case_decide as Heq.
          -- subst id'. cbn. split; [intros _; split; [lia | done] | by right].
          -- split; [intros [H | H]; [done | congruence] | by left].
      + done. }
  destruct Hlog as [Hnd Hin]. split; [done | split; [done |]].
  set (ids := countFrom 1 (N.to_nat (nextCertificateId st - 1))).
  assert (Hperm : revokedLog st
                  ≡ₚ filter (fun id => ~ (isValid (certificateAt st id) = true)) ids).
  { apply NoDup_Permutation; [done | apply NoDup_filter, NoDup_countFrom |].
    intros id. rewrite Hin, list_elem_of_filter. unfold ids.
    rewrite elem_of_countFrom.
    pose proof (inv_next st (Inv_reachable st Hr)).
    destruct (isValid (certificateAt st id)); split; intros [H1 H2];
      (split; [first [ lia | done | congruence ] | first [ lia | done | congruence ]]). }
  rewrite Hperm. unfold validIds. fold ids.
  rewrite <- length_app, filter_app_complement.
  apply length_countFrom.
Qed.

Lemma revoked_log_matches_validity_demo :
  revokedLog (run (constructor alice) demo) = [1] /\
  (length (validIds (run (constructor alice) demo))
   + length (revokedLog (run (constructor alice) demo)))%nat = 1%nat.
Proof.
  split; [reflexivity |].
  exact (proj2 (proj2 (revoked_log_matches_validity _ demo_reachable))).
Defined.

(** ** Verification over time *)

Lemma transact_revoke_sender (st : State) (m : Msg) (id : N) (v : Value) :
  snd (transact st (m, RevokeCertificate id)) = inr v -> sender m = owner st.
Proof.
  unfold transact, call, dispatch. cbn [fst snd]. unfold bind at 1.
  destruct (revokeCertificate_outcome m id st); cbn; intros [=]; done.
Qed.

(** X7. In a reachable state, what [verifyCertificateByHash(h)] returns
    changes in a transaction only when that transaction is an issuance of
    [h] that goes through, or a revocation, that goes through, of the record
    registered under [h]. Issuing or revoking other certificates, failed
    calls and lookups leave the answer for [h] as it was. *)
Theorem verification_changes_only_by_own_tx (st : State) (tx : Tx) (h : string) :
  reachable st ->
  snd (call (verifyCertificateByHash h) (step st tx))
  <> snd (call (verifyCertificateByHash h) st) ->
  (exists p e, snd tx = IssueCertificate p e h /\
               snd (transact st tx) = inr (VId (nextCertificateId st))) \/
  (idOfHash st h <> 0 /\ snd tx = RevokeCertificate (idOfHash st h) /\
   snd (transact st tx) = inr VUnit).
Proof.
  intros Hr. pose proof (Inv_reachable st Hr) as HI.
  unfold call. rewrite !verifyCertificateByHash_eq. cbn [snd]. unfold step.
  destruct (transact_effect st tx) as [p e h' Htx | id Htx Ho Hid Hv | out];
    cbn [fst snd]; [| | done].
  - rewrite idOfHash_issue_post. case_decide as Heq.
    + subst h'. intros _. left. eauto.
    + intros Hdiff. exfalso. apply Hdiff.
      destruct (N.eqb_spec (idOfHash st h) 0) as [| Hne]; [done |].
      cbn zeta. rewrite certificateAt_issue_post.
      rewrite decide_False; [done |].
      pose proof (inv_index_range st HI h). lia.
  - rewrite idOfHash_revoke_post. intros Hdiff.
    destruct (N.eqb_spec (idOfHash st h) 0) as [| Hne]; [done |].
    cbn zeta in Hdiff. rewrite certificateAt_revoke_post in Hdiff.
    case_decide as Heq; [| done].
    right. split; [done | split; [by rewrite Heq | done]].
Qed.

Lemma verification_changes_only_by_own_tx_demo :
  (exists p e,
     snd (alice, RevokeCertificate 1) = IssueCertificate p e "aaa111" /\
     snd (transact (issue_post alice "Alice" "Contest2024" "aaa111" (constructor alice))
                   (alice, RevokeCertificate 1))
     = inr (VId (nextCertificateId
                   (issue_post alice "Alice" "Contest2024" "aaa111" (constructor alice))))) \/
  (idOfHash (issue_post alice "Alice" "Contest2024" "aaa111" (constructor alice)) "aaa111" <> 0 /\
   snd (alice, RevokeCertificate 1)
   = RevokeCertificate
       (idOfHash (issue_post alice "Alice" "Contest2024" "aaa111" (constructor alice)) "aaa111") /\
   snd (transact (issue_post alice "Alice" "Contest2024" "aaa111" (constructor alice))
                 (alice, RevokeCertificate 1))
   = inr VUnit).
Proof.
  apply (verification_changes_only_by_own_tx
           (issue_post alice "Alice" "Contest2024" "aaa111" (constructor alice))
           (alice, RevokeCertificate 1) "aaa111").
  - apply (reachable_step (constructor alice)
             (alice, IssueCertificate "Alice" "Contest2024" "aaa111")).
    apply reachable_deploy.
  - vm_compute. discriminate.
Defined.

(** X8. In a reachable state every record the lookups return has a
    non-empty participant name, event name and content hash, and the empty
    string is no registered hash: [verifyCertificateByHash("")] reports
    not-found. *)
Theorem stored_fields_nonempty (st : State) :
  reachable st ->
  (forall i r,
     call (verifyCertificateById i) st = (st, inr r) -> bi_exists r = true ->
     bi_participantName r <> "" /\ bi_eventName r <> "" /\
     bi_certificateHash r <> "") /\
  (forall h r,
     call (verifyCertificateByHash h) st = (st, inr r) -> bh_exists r = true ->
     h <> "" /\ bh_participantName r <> "" /\ bh_eventName r <> "") /\
  call (verifyCertificateByHash "") st = (st, inr (mkByHash false 0 "" "" 0 false)).
Proof.
  intros Hr. pose proof (Inv_reachable st Hr) as HI.
  assert (Hhash : forall h, idOfHash st h <> 0 ->
            h <> "" /\
            participantName (certificateAt st (idOfHash st h)) <> "" /\
            eventName (certificateAt st (idOfHash st h)) <> "").
  { intros h Hne. pose proof (idOfHash_in_range st h HI Hne) as Hrange.
    assert (Hrange' : 0 < idOfHash st h < nextCertificateId st) by lia.
    destruct (inv_record_fields st HI _ Hrange') as (Hp & He & Hh).
    rewrite (inv_index_hash st HI h Hne) in Hh. done. }
  split; [| split].
  - intros i r Hcall Hex.
    destruct (decide (1 <= i < nextCertificateId st)) as [Hi | Hi].
    + destruct (lookup_by_id_found st i Hi) as [Hfound _].
      rewrite Hfound in Hcall. injection Hcall as <-. cbn.
      apply (inv_record_fields st HI). lia.
    + rewrite (lookup_by_id_missing st i Hi) in Hcall.
      injection Hcall as <-. done.
  - intros h r Hcall Hex.
    destruct (N.eq_dec (idOfHash st h) 0) as [H0 | Hne].
    + rewrite (lookup_by_hash_missing st h H0) in Hcall.
      injection Hcall as <-. done.
    + rewrite (lookup_by_hash_found st h Hne) in Hcall.
      injection Hcall as <-. cbn. by apply Hhash.
  - apply lookup_by_hash_missing.
    destruct (N.eq_dec (idOfHash st "") 0) as [| Hne]; [done |].
    by destruct (Hhash "" Hne) as [Habs _].
Qed.

Lemma stored_fields_nonempty_demo :
  call (verifyCertificateByHash "") (run (constructor alice) demo)
  = (run (constructor alice) demo, inr (mkByHash false 0 "" "" 0 false)).
Proof. exact (proj2 (proj2 (stored_fields_nonempty _ demo_reachable))). Defined.



(** X10. A certificate stays valid until its owner revokes it. If the
    record of [id] is valid and, in the transactions that follow, no
    [revokeCertificate(id)] is sent by the owner, then the record is still
    valid afterwards and [verifyCertificateById(id)] reports it with
    [isValid = true]: issuances, revocations of other ids, calls by other
    senders and lookups cannot invalidate it. *)
Theorem valid_until_owner_revokes (st : State) (id : N) (txs : list Tx) :
  1 <= id < nextCertificateId st ->
  isValid (certificateAt st id) = true ->
  (forall tx, tx ∈ txs -> snd tx = RevokeCertificate id ->
              sender (fst tx) <> owner st) ->
  isValid (certificateAt (run st txs) id) = true /\
  call (verifyCertificateById id) (run st txs)
  = (run st txs,
     inr (mkById true (participantName (certificateAt st id))
                 (eventName (certificateAt st id))
                 (certificateHash (certificateAt st id))
                 (timestamp (certificateAt st id)) true)).
Proof.
  intros Hid Hv Hno.
  assert (Hvalid : isValid (certificateAt (run st txs) id) = true).
  { clear Hid. revert st Hv Hno.
    induction txs as [| tx txs IH]; intros st Hv Hno; [done |].
    rewrite run_cons. apply IH.
    - destruct (decide (isValid (certificateAt (step st tx) id)
                        = isValid (certificateAt st id))) as [Heq | Hdiff];
        [congruence |].
      exfalso.
      assert (Hlt : id < nextCertificateId st).
      { destruct (N.lt_ge_cases id (nextCertificateId st)) as [| Hge]; [done |].
        exfalso. apply Hdiff. unfold step.
        destruct (transact_effect st tx) as [p e h | id' Htx Ho Hr Hv' | out];
          cbn [fst]; [| | done].
        - rewrite certificateAt_issue_post. case_decide as Heq; [| done].
          by rewrite Hv.
        - rewrite certificateAt_revoke_post. rewrite decide_False by lia. done. }
      destruct (isValid_change st tx id Hlt Hdiff) as (_ & _ & Htx & Hout).
      destruct tx as [m c]. cbn [snd] in Htx. subst c.
      apply transact_revoke_sender in Hout.
      apply (Hno (m, RevokeCertificate id)); [apply list_elem_of_here | done | done].
    - intros tx' Hin Htx'. rewrite owner_step.
      apply Hno; [by apply list_elem_of_further | done]. }
  split; [done |].
  assert (Hlt : id < nextCertificateId st) by lia.
  destruct (record_run st txs id Hlt) as [(Hp & He & Hh & Ht) _].
  pose proof (nextCertificateId_run_le st txs) as Hle.
  assert (Hid' : 1 <= id < nextCertificateId (run st txs)) by lia.
  destruct (lookup_by_id_found (run st txs) id Hid') as [Hfound _].
  rewrite Hfound. by rewrite Hp, He, Hh, Ht, Hvalid.
Qed.

Lemma valid_until_owner_revokes_demo :
  isValid (certificateAt (run twoIssued [(alice, RevokeCertificate 2);
                                         (mallory, RevokeCertificate 1)]) 1) = true.
Proof.
  apply (valid_until_owner_revokes twoIssued 1
           [(alice, RevokeCertificate 2); (mallory, RevokeCertificate 1)]).
  - split; [lia | reflexivity].
  - reflexivity.
  - intros tx Hin Htx.
    apply elem_of_cons in Hin as [-> | Hin]; [discriminate |].
    apply list_elem_of_singleton in Hin as ->. discriminate.
Defined.

(** * Properties of the issuing endpoint *)

Lemma truthy_Str (s : string) : truthy (Str s) = true <-> s <> "".
Proof. apply nonempty_true. Qed.

Lemma errorMessage_Error (rt : Runtime) (reason : string) :
  reason <> "" -> errorMessage rt (Error reason) = reason.
Proof.
  intros Hne. unfold errorMessage, caughtMessage, revertException.
  cbn [ex_reason given default]. apply nonempty_true in Hne. by rewrite Hne.
Qed.

Lemma receiptLogs_issue_post (msg : Msg) (p e h : string) (st : State) :
  receiptLogs st (issue_post msg p e h st)
  = [CertificateIssued (nextCertificateId st) p e h].
Proof.
  unfold receiptLogs. cbn [issue_post events].
  by rewrite drop_app_length.
Qed.

Lemma service_issue_returns (rt : Runtime) (wallet : N) (net : Mined)
    (p e h : string) (st : State) :
  refusal net = None ->
  wallet = owner st -> p <> "" -> e <> "" -> h <> "" ->
  idOfHash st h = 0 -> nextCertificateId st < MAX_UINT256 ->
  BlockchainService_issueCertificate rt wallet net (Str p) (Str e) h st
  = (issue_post (mkMsg wallet (block_time net)) p e h st,
     IssueSucceeded (Some (pretty (nextCertificateId st)))
                    (tx_hash net) (block_number net) (pretty (gas_used net))).
Proof.
  intros Hnet Ho Hp He Hh Hk Hn. unfold BlockchainService_issueCertificate, call.
  rewrite Hnet, issueCertificate_returns by done.
  by rewrite receiptLogs_issue_post.
Qed.

Lemma service_issue_reverted (rt : Runtime) (wallet : N) (net : Mined)
    (p e h : string) (r : Revert) (st st' : State) :
  refusal net = None ->
  issueCertificate (mkMsg wallet (block_time net)) p e h st = Reverted r st' ->
  BlockchainService_issueCertificate rt wallet net (Str p) (Str e) h st
  = (st, IssueFailed (errorMessage rt r)).
Proof.
  intros Hnet Hbody. unfold BlockchainService_issueCertificate, call.
  by rewrite Hnet, Hbody.
Qed.

Lemma service_issue_failed_storage (rt : Runtime) (wallet : N) (net : Mined)
    (pn en : FormValue) (h error : string) (st st' : State) :
  BlockchainService_issueCertificate rt wallet net pn en h st = (st', IssueFailed error) ->
  st' = st.
Proof.
  unfold BlockchainService_issueCertificate, call.
  destruct pn as [| p |]; try (intros [= <-]; done).
  destruct en as [| e |]; try (intros [= <-]; done).
  destruct (refusal net); [intros [= <-]; done |].
  destruct (issueCertificate (mkMsg wallet (block_time net)) p e h st);
    intros [= <-]; done.
Qed.

Lemma service_issue_succeeded_inv (rt : Runtime) (wallet : N) (net : Mined)
    (pn en : FormValue) (h : string) (st st' : State) (cid : option string)
    (txh gas : string) (bn : N) :
  BlockchainService_issueCertificate rt wallet net pn en h st
  = (st', IssueSucceeded cid txh bn gas) ->
  exists p e,
    pn = Str p /\ en = Str e /\ refusal net = None /\
    wallet = owner st /\ p <> "" /\ e <> "" /\ h <> "" /\
    idOfHash st h = 0 /\ nextCertificateId st < MAX_UINT256 /\
    st' = issue_post (mkMsg wallet (block_time net)) p e h st /\
    cid = Some (pretty (nextCertificateId st)).
Proof.
  unfold BlockchainService_issueCertificate.
  destruct pn as [| p |]; try done. destruct en as [| e |]; try done.
  destruct (refusal net) as [ex |] eqn:Hnet; [done |].
  destruct (call (issueCertificate (mkMsg wallet (block_time net)) p e h) st)
    as [st1 [r | id]] eqn:Hcall; [done |].
  apply issueCertificate_returned_inv in Hcall
    as (Ho & Hp & He & Hh & Hk & Hn & -> & ->).
  rewrite receiptLogs_issue_post. cbn. intros [= <- <- _ _ _].
  exists p, e. done.
Qed.

Lemma postIssue_failed (rt : Runtime) (wallet : N) (net : Mined)
    (req : IssueRequest) (w : World) (file : File) (fileBuffer error : string)
    (st' : State) :
  req_upload req = Uploaded (Some file) ->
  truthy (req_participantName req) = true ->
  truthy (req_eventName req) = true ->
  uploads w !! file_path file = Some fileBuffer ->
  BlockchainService_issueCertificate rt wallet net
    (req_participantName req) (req_eventName req)
    (generateFileHash rt fileBuffer) (chain w)
  = (st', IssueFailed error) ->
  postIssue rt (Some wallet) net req w
  = (fs_remove (file_path file) (mkWorld st' (uploads w)),
     mkResponse 500
       (JObject [("success", JBool false);
                 ("error", JString "Failed to issue certificate on blockchain");
                 ("message", JString error)])).
Proof.
  intros Hf Hp He Hu Hs. unfold postIssue.
  rewrite Hf, Hp, He, Hu. cbn [negb orb]. cbn zeta. by rewrite Hs.
Qed.

Lemma postIssue_succeeded (rt : Runtime) (wallet : N) (net : Mined)
    (req : IssueRequest) (w : World) (file : File) (fileBuffer : string)
    (st' : State) (certificateId : option string) (transactionHash gasUsed : string)
    (blockNumber : N) :
  req_upload req = Uploaded (Some file) ->
  truthy (req_participantName req) = true ->
  truthy (req_eventName req) = true ->
  uploads w !! file_path file = Some fileBuffer ->
  BlockchainService_issueCertificate rt wallet net
    (req_participantName req) (req_eventName req)
    (generateFileHash rt fileBuffer) (chain w)
  = (st', IssueSucceeded certificateId transactionHash blockNumber gasUsed) ->
  fst (postIssue rt (Some wallet) net req w) = mkWorld st' (uploads w) /\
  status (snd (postIssue rt (Some wallet) net req w)) = 200 /\
  (jfield "data" (body (snd (postIssue rt (Some wallet) net req w)))
     ≫= jfield "certificateId")
  = Some (match certificateId with Some id => JString id | None => JNull end) /\
  (jfield "data" (body (snd (postIssue rt (Some wallet) net req w)))
     ≫= jfield "certificateHash")
  = Some (JString (generateFileHash rt fileBuffer)).
Proof.
  intros Hf Hp He Hu Hs. unfold postIssue.
  rewrite Hf, Hp, He, Hu. cbn [negb orb]. cbn zeta. rewrite Hs.
  repeat split.
Qed.

Lemma postIssue_outcome (rt : Runtime) (service : option N) (net : Mined)
    (req : IssueRequest) (w : World) :
  PostIssueOutcome rt service net req w (postIssue rt service net req w).
Proof.
  destruct service as [wallet |]; [| by apply post_no_service].
  destruct (req_upload req) as [message | req_file] eqn:Hup;
    [unfold postIssue; rewrite Hup;
     by apply (post_upload_refused _ _ _ _ _ wallet message) |].
  destruct (truthy (req_participantName req)) eqn:Hp;
    [| unfold postIssue; rewrite Hup, Hp; cbn [negb orb];
       apply (post_bad_request _ _ _ _ _ wallet req_file); [done | done | by left | done]].
  destruct (truthy (req_eventName req)) eqn:He;
    [| unfold postIssue; rewrite Hup, Hp, He; cbn [negb orb];
       apply (post_bad_request _ _ _ _ _ wallet req_file);
         [done | done | by right; left | done]].
  destruct req_file as [file |];
    [| unfold postIssue; rewrite Hup, Hp, He; cbn [negb orb];
       apply (post_bad_request _ _ _ _ _ wallet None);
         [done | done | by right; right | done]].
  destruct (uploads w !! file_path file) as [fileBuffer |] eqn:Hu;
    [| unfold postIssue; rewrite Hup, Hp, He, Hu; cbn [negb orb];
       by apply (post_unreadable _ _ _ _ _ wallet file)].
  destruct (BlockchainService_issueCertificate rt wallet net
              (req_participantName req) (req_eventName req)
              (generateFileHash rt fileBuffer) (chain w))
    as [st' [cid txh bn gas | error]] eqn:Hs.
  - destruct (postIssue_succeeded rt wallet net req w file fileBuffer st'
                cid txh gas bn Hup Hp He Hu Hs) as (Hw & Hst & Hcid & _).
    apply service_issue_succeeded_inv in Hs
      as (p & e & Hpn & Hen & Hnet & Ho & Hpe & Hee & Hh & Hk & Hn & -> & ->).
    rewrite (surjective_pairing (postIssue rt (Some wallet) net req w)), Hw.
    by apply (post_issued _ _ _ _ _ wallet file fileBuffer p e).
  - rewrite (postIssue_failed rt wallet net req w file fileBuffer error st'
               Hup Hp He Hu Hs).
    apply service_issue_failed_storage in Hs as ->.
    replace (mkWorld (chain w) (uploads w)) with w by by destruct w.
    by apply (post_chain_failed _ _ _ _ _ wallet file fileBuffer).
Qed.




(** X12. What a request to [POST /api/certificates/issue] does to the
    uploads directory. The handler never creates a file. A 400 and a 200
    response leave the directory as it was: in particular a request that
    came with a file but without a participant or event name is refused with
    400 and its uploaded file stays on disk. A 500 response from a running
    service has one of two origins: the upload itself was refused (wrong
    file type, file too large), the handler never ran and the directory is
    as it was; or the upload was accepted with a file, and that file and
    nothing else is removed. *)
Theorem post_issue_upload_effects (rt : Runtime) (service : option N) (net : Mined)
    (req : IssueRequest) (w : World) :
  (forall path content,
     uploads (fst (postIssue rt service net req w)) !! path = Some content ->
     uploads w !! path = Some content) /\
  (status (snd (postIssue rt service net req w)) = 400 \/
   status (snd (postIssue rt service net req w)) = 200 ->
   uploads (fst (postIssue rt service net req w)) = uploads w) /\
  (forall wallet file content,
     service = Some wallet -> req_upload req = Uploaded (Some file) ->
     uploads w !! file_path file = Some content ->
     truthy (req_participantName req) = false \/ truthy (req_eventName req) = false ->
     status (snd (postIssue rt service net req w)) = 400 /\
     uploads (fst (postIssue rt service net req w)) !! file_path file = Some content) /\
  (forall wallet message,
     service = Some wallet -> req_upload req = UploadRefused message ->
     postIssue rt service net req w
     = (w, mkResponse 500 (JObject [("error", JString "Internal server error");
                                    ("message", JString message)]))) /\
  (forall wallet,
     service = Some wallet ->
     status (snd (postIssue rt service net req w)) = 500 ->
     (exists message,
        req_upload req = UploadRefused message /\
        uploads (fst (postIssue rt service net req w)) = uploads w) \/
     (exists file,
        req_upload req = Uploaded (Some file) /\
        uploads (fst (postIssue rt service net req w))
        = delete (file_path file) (uploads w))).
Proof.
  split; [| split; [| split; [| split]]].
  - intros path content.
    destruct (postIssue_outcome rt service net req w)
      as [resp Hs Hst | wallet message resp Hs Hup Hst
          | wallet req_file resp Hs Hup Hbad Hst
          | wallet file resp Hs Hup Hp He Hu Hst
          | wallet file buf resp Hs Hup Hp He Hu Hst
          | wallet file buf p e resp Hs Hup Hpn Hen Hp He Hu Hnet Ho Hh Hk Hn Hst Hcid];
      cbn [fst snd uploads fs_remove]; try done.
    + intros Hl. by apply lookup_delete_Some in Hl as [_ Hl].
    + intros Hl. by apply lookup_delete_Some in Hl as [_ Hl].
  - destruct (postIssue_outcome rt service net req w)
      as [resp Hs Hst | wallet message resp Hs Hup Hst
          | wallet req_file resp Hs Hup Hbad Hst
          | wallet file resp Hs Hup Hp He Hu Hst
          | wallet file buf resp Hs Hup Hp He Hu Hst
          | wallet file buf p e resp Hs Hup Hpn Hen Hp He Hu Hnet Ho Hh Hk Hn Hst Hcid];
      cbn [fst snd uploads fs_remove]; try done.
    + rewrite Hst. intros [|]; done.
    + rewrite Hst. intros [|]; done.
  - intros wallet file content -> Hf Hu Hbad. unfold postIssue. rewrite Hf.
    destruct Hbad as [-> | ->]; cbn [negb orb]; [done |].
    rewrite orb_true_r. done.
  - intros wallet message -> Hup. unfold postIssue. by rewrite Hup.
  - intros wallet' Hs'.
    destruct (postIssue_outcome rt service net req w)
      as [resp Hs Hst | wallet message resp Hs Hup Hst
          | wallet req_file resp Hs Hup Hbad Hst
          | wallet file resp Hs Hup Hp He Hu Hst
          | wallet file buf resp Hs Hup Hp He Hu Hst
          | wallet file buf p e resp Hs Hup Hpn Hen Hp He Hu Hnet Ho Hh Hk Hn Hst Hcid];
      cbn [fst snd uploads fs_remove]; try congruence.
    + intros _. left. by exists message.
    + intros _. right. by exists file.
    + intros _. right. by exists file.
Qed.

Lemma post_issue_upload_effects_demo :
  (status (snd (postIssue demoRuntime (Some 7) demoMined
                  (mkIssueRequest Undefined (Str "Contest2024") (Uploaded (Some demoFile))
                                  "http" "localhost:3000")
                  demoWorld)) = 400 /\
   uploads (fst (postIssue demoRuntime (Some 7) demoMined
                   (mkIssueRequest Undefined (Str "Contest2024") (Uploaded (Some demoFile))
                                   "http" "localhost:3000")
                   demoWorld)) !! "uploads/certificate-1.pdf" = Some "%PDF1") /\
  postIssue demoRuntime (Some 7) demoMined
    (mkIssueRequest (Str "Alice") (Str "Contest2024")
                    (UploadRefused "Only images (JPEG, JPG, PNG, GIF) and PDF files are allowed")
                    "http" "localhost:3000")
    demoWorld
  = (demoWorld,
     mkResponse 500
       (JObject [("error", JString "Internal server error");
                 ("message",
                  JString "Only images (JPEG, JPG, PNG, GIF) and PDF files are allowed")])).
Proof.
  split.
  - destruct (post_issue_upload_effects demoRuntime (Some 7) demoMined
                (mkIssueRequest Undefined (Str "Contest2024") (Uploaded (Some demoFile))
                                "http" "localhost:3000")
                demoWorld) as (_ & _ & Hleft & _).
    apply (Hleft 7 demoFile "%PDF1"); [reflexivity | reflexivity | reflexivity |].
    left. reflexivity.
  - destruct (post_issue_upload_effects demoRuntime (Some 7) demoMined
                (mkIssueRequest (Str "Alice") (Str "Contest2024")
                   (UploadRefused "Only images (JPEG, JPG, PNG, GIF) and PDF files are allowed")
                   "http" "localhost:3000")
                demoWorld) as (_ & _ & _ & Hrefused & _).
    apply (Hrefused 7); reflexivity.
Defined.

(** X13. Issue, then verify. When the service wallet is the contract
    owner, the network accepts the transaction, the request carries a
    participant and an event name that are non-empty strings and a readable
    file whose digest is not empty and not yet registered, and the counter
    satisfies [1 <= nextCertificateId < 2^256 - 1], the endpoint answers 200
    with [data.certificateId] the decimal text of [nextCertificateId] and
    [data.certificateHash] the file's digest, keeps the uploaded file, and
    afterwards [verifyCertificateByHash] of that digest finds the
    certificate, valid, with the names of the request and the block time of
    the transaction. The verification endpoint then answers 200 with
    "Certificate is valid and verified" when that block time is within the
    range of a JavaScript date (at most 8 640 000 000 000 seconds), and 500
    beyond it. *)
Theorem post_issue_then_verify (rt : Runtime) (wallet : N) (net : Mined)
    (req : IssueRequest) (w : World) (file : File) (fileBuffer p e : string) :
  req_participantName req = Str p -> p <> "" ->
  req_eventName req = Str e -> e <> "" ->
  req_upload req = Uploaded (Some file) ->
  uploads w !! file_path file = Some fileBuffer ->
  refusal net = None ->
  wallet = owner (chain w) ->
  generateFileHash rt fileBuffer <> "" ->
  idOfHash (chain w) (generateFileHash rt fileBuffer) = 0 ->
  1 <= nextCertificateId (chain w) < MAX_UINT256 ->
  status (snd (postIssue rt (Some wallet) net req w)) = 200 /\
  (jfield "data" (body (snd (postIssue rt (Some wallet) net req w)))
     ≫= jfield "certificateId")
  = Some (JString (pretty (nextCertificateId (chain w)))) /\
  (jfield "data" (body (snd (postIssue rt (Some wallet) net req w)))
     ≫= jfield "certificateHash")
  = Some (JString (generateFileHash rt fileBuffer)) /\
  uploads (fst (postIssue rt (Some wallet) net req w)) = uploads w /\
  call (verifyCertificateByHash (generateFileHash rt fileBuffer))
       (chain (fst (postIssue rt (Some wallet) net req w)))
  = (chain (fst (postIssue rt (Some wallet) net req w)),
     inr (mkByHash true (nextCertificateId (chain w)) p e (block_time net) true)) /\
  (block_time net <= MAX_DATE_SECONDS ->
   getVerify rt (Some wallet) (generateFileHash rt fileBuffer)
             (chain (fst (postIssue rt (Some wallet) net req w)))
   = mkResponse 200
       (JObject
          [("success", JBool true);
           ("verified", JBool true);
           ("data",
            JObject
              [("certificateId", JString (pretty (nextCertificateId (chain w))));
               ("participantName", JString p);
               ("eventName", JString e);
               ("timestamp", JString (isoString rt (block_time net)));
               ("isValid", JBool true);
               ("certificateHash", JString (generateFileHash rt fileBuffer))]);
           ("message", JString "Certificate is valid and verified")])) /\
  (MAX_DATE_SECONDS < block_time net ->
   getVerify rt (Some wallet) (generateFileHash rt fileBuffer)
             (chain (fst (postIssue rt (Some wallet) net req w)))
   = mkResponse 500
       (JObject [("success", JBool false);
                 ("error", JString "Failed to verify certificate");
                 ("message", JString (invalidTimeMessage rt))])).
Proof.
  intros Hpn Hp Hen He Hf Hu Hnet Ho Hh Hk [Hn1 Hn].
  pose proof (service_issue_returns rt wallet net p e (generateFileHash rt fileBuffer)
                (chain w) Hnet Ho Hp He Hh Hk Hn) as Hs.
  rewrite <- Hpn, <- Hen in Hs.
  assert (Htp : truthy (req_participantName req) = true)
    by (rewrite Hpn; by apply truthy_Str).
  assert (Hte : truthy (req_eventName req) = true)
    by (rewrite Hen; by apply truthy_Str).
  destruct (postIssue_succeeded rt wallet net req w file fileBuffer _ _ _ _ _
              Hf Htp Hte Hu Hs) as (Hw & Hst & Hcid & Hhash).
  rewrite Hw. cbn [chain uploads].
  set (h := generateFileHash rt fileBuffer) in *.
  set (st' := issue_post (mkMsg wallet (block_time net)) p e h (chain w)).
  assert (Hidx : idOfHash st' h = nextCertificateId (chain w)).
  { unfold st'. by rewrite idOfHash_issue_post, decide_True. }
  assert (Hrec : certificateAt st' (nextCertificateId (chain w))
                 = mkCertificate p e h (block_time net) true).
  { unfold st'. by rewrite certificateAt_issue_post, decide_True. }
  assert (Hne : idOfHash st' h <> 0) by (rewrite Hidx; lia).
  split; [done |]. split; [done |]. split; [done |]. split; [done |].
  split; [| split].
  - rewrite (lookup_by_hash_found st' h Hne), Hidx, Hrec. done.
  - intros Hts. rewrite (getVerify_found rt wallet h st' Hh Hne).
    + rewrite Hidx, Hrec. reflexivity.
    + rewrite Hidx, Hrec. exact Hts.
  - intros Hts. apply (getVerify_beyond rt wallet h st' Hh Hne).
    rewrite Hidx, Hrec. exact Hts.
Qed.

Lemma post_issue_then_verify_demo :
  (status (snd (postIssue demoRuntime (Some 7) demoMined demoRequest demoWorld)) = 200 /\
   call (verifyCertificateByHash "sha256:%PDF1")
        (chain (fst (postIssue demoRuntime (Some 7) demoMined demoRequest demoWorld)))
   = (chain (fst (postIssue demoRuntime (Some 7) demoMined demoRequest demoWorld)),
      inr (mkByHash true 1 "Alice" "Contest2024" 1700000000 true)) /\
   jfield "message"
     (body (getVerify demoRuntime (Some 7) "sha256:%PDF1"
              (chain (fst (postIssue demoRuntime (Some 7) demoMined demoRequest demoWorld)))))
   = Some (JString "Certificate is valid and verified")) /\
  status (getVerify demoRuntime (Some 7) "sha256:%PDF1"
            (chain (fst (postIssue demoRuntime (Some 7)
                           (mkMined 8640000000001 "0xabc" 42 120000 None)
                           demoRequest demoWorld))))
  = 500.
Proof.
  split.
  - destruct (post_issue_then_verify demoRuntime 7 demoMined demoRequest demoWorld
                demoFile "%PDF1" "Alice" "Contest2024")
      as (Hst & _ & _ & _ & Hverify & Hin & _);
      try reflexivity; try discriminate.
    + change (1 <= 1 < MAX_UINT256). split; [lia | reflexivity].
    + split; [exact Hst |]. split; [exact Hverify |].
      assert (Hts : block_time demoMined <= MAX_DATE_SECONDS)
        by (vm_compute; discriminate).
      exact (f_equal (fun resp => jfield "message" (body resp)) (Hin Hts)).
  - destruct (post_issue_then_verify demoRuntime 7
                (mkMined 8640000000001 "0xabc" 42 120000 None) demoRequest demoWorld
                demoFile "%PDF1" "Alice" "Contest2024")
      as (_ & _ & _ & _ & _ & _ & Hout);
      [ first [ reflexivity | discriminate
              | change (1 <= 1 < MAX_UINT256); split; [lia | reflexivity] ] .. |].
    assert (Hts : MAX_DATE_SECONDS
                  < block_time (mkMined 8640000000001 "0xabc" 42 120000 None))
      by reflexivity.
    exact (f_equal status (Hout Hts)).
Defined.

(** ** Requests that cannot issue *)

Lemma postIssue_not_issued (rt : Runtime) (service : option N) (net : Mined)
    (req : IssueRequest) (w : World) :
  (forall wallet file fileBuffer,
     service = Some wallet -> req_upload req = Uploaded (Some file) ->
     uploads w !! file_path file = Some fileBuffer ->
     wallet <> owner (chain w) \/
     idOfHash (chain w) (generateFileHash rt fileBuffer) <> 0) ->
  status (snd (postIssue rt service net req w)) <> 200 /\
  chain (fst (postIssue rt service net req w)) = chain w.
Proof.
  intros Hno.
  destruct (postIssue_outcome rt service net req w)
    as [resp Hs Hst | wallet message resp Hs Hup Hst
        | wallet req_file resp Hs Hup Hbad Hst
        | wallet file resp Hs Hup Hp He Hu Hst
        | wallet file buf resp Hs Hup Hp He Hu Hst
        | wallet file buf p e resp Hs Hup Hpn Hen Hp He Hu Hnet Ho Hh Hk Hn Hst Hcid];
    cbn [fst snd chain fs_remove]; try (rewrite Hst; done).
  destruct (Hno wallet file buf Hs Hup Hu); done.
Qed.

(** X14. The same file cannot be issued twice. In a reachable chain, once
    a request with a file of content [c] was answered 200, no later request
    whose file has content [c] (under whatever path, after whatever
    transactions, whatever its fields and whatever the network answers) is
    answered 200, and none changes the contract storage. When such a request
    carries a participant and an event name that are non-empty strings and
    the network does not refuse it, the answer is 500 with the message
    "Certificate with this hash already exists" and the second upload is
    removed from disk. *)
Theorem post_issue_same_file_twice (rt : Runtime) (wallet : N) (net1 net2 : Mined)
    (req1 req2 : IssueRequest) (w : World) (file1 file2 : File) (c : string)
    (txs : list Tx) (uploads2 : gmap string string) :
  reachable (chain w) ->
  req_upload req1 = Uploaded (Some file1) -> uploads w !! file_path file1 = Some c ->
  status (snd (postIssue rt (Some wallet) net1 req1 w)) = 200 ->
  req_upload req2 = Uploaded (Some file2) -> uploads2 !! file_path file2 = Some c ->
  (forall service2,
     status (snd (postIssue rt service2 net2 req2
       (mkWorld (run (chain (fst (postIssue rt (Some wallet) net1 req1 w))) txs) uploads2)))
     <> 200 /\
     chain (fst (postIssue rt service2 net2 req2
       (mkWorld (run (chain (fst (postIssue rt (Some wallet) net1 req1 w))) txs) uploads2)))
     = run (chain (fst (postIssue rt (Some wallet) net1 req1 w))) txs) /\
  (forall p2 e2,
     req_participantName req2 = Str p2 -> p2 <> "" ->
     req_eventName req2 = Str e2 -> e2 <> "" ->
     refusal net2 = None ->
     postIssue rt (Some wallet) net2 req2
       (mkWorld (run (chain (fst (postIssue rt (Some wallet) net1 req1 w))) txs) uploads2)
     = (mkWorld (run (chain (fst (postIssue rt (Some wallet) net1 req1 w))) txs)
                (delete (file_path file2) uploads2),
        mkResponse 500
          (JObject [("success", JBool false);
                    ("error", JString "Failed to issue certificate on blockchain");
                    ("message", JString "Certificate with this hash already exists")]))).
Proof.
  intros Hreach Hf1 Hu1 Hok Hf2 Hu2.
  pose proof (inv_next _ (Inv_reachable _ Hreach)) as Hnext.
  revert Hok.
  destruct (postIssue_outcome rt (Some wallet) net1 req1 w)
    as [resp Hs Hst | wallet' message resp Hs Hup Hst
        | wallet' req_file resp Hs Hup Hbad Hst
        | wallet' file resp Hs Hup Hp He Hu Hst
        | wallet' file buf resp Hs Hup Hp He Hu Hst
        | wallet' file buf p e resp Hs Hup Hpn Hen Hp He Hu Hnet Ho Hh Hk Hn Hst Hcid];
    cbn [fst snd chain]; try (rewrite Hst; done).
  intros _. injection Hs as <-.
  assert (file = file1) by congruence. subst file.
  assert (buf = c) by congruence. subst buf.
  set (h := generateFileHash rt c) in *.
  set (st1 := issue_post (mkMsg wallet (block_time net1)) p e h (chain w)).
  assert (Hidx : idOfHash (run st1 txs) h <> 0).
  { rewrite idOfHash_run; unfold st1; rewrite idOfHash_issue_post, decide_True by done; lia. }
  split.
  - intros service2.
    apply (postIssue_not_issued rt service2 net2 req2 (mkWorld (run st1 txs) uploads2)).
    cbn [chain uploads]. intros wallet2 file buf _ Hup2 Hbuf. right.
    assert (file = file2) by congruence. subst file.
    assert (buf = c) by congruence. subst buf. exact Hidx.
  - intros p2 e2 Hpn2 Hp2 Hen2 He2 Hnet2.
    assert (Ho2 : sender (mkMsg wallet (block_time net2)) = owner (run st1 txs)).
    { rewrite owner_run. done. }
    pose proof (issueCertificate_duplicate (mkMsg wallet (block_time net2)) p2 e2 h
                  (run st1 txs) Ho2 Hp2 He2 Hh Hidx) as Hbody.
    pose proof (service_issue_reverted rt wallet net2 p2 e2 h _ _ _ Hnet2 Hbody) as Hsv.
    rewrite errorMessage_Error in Hsv by done.
    rewrite <- Hpn2, <- Hen2 in Hsv.
    apply (postIssue_failed rt wallet net2 req2 (mkWorld (run st1 txs) uploads2)
             file2 c "Certificate with this hash already exists" (run st1 txs));
      try done.
    + rewrite Hpn2. by apply truthy_Str.
    + rewrite Hen2. by apply truthy_Str.
Qed.

Lemma post_issue_same_file_twice_demo :
  (status (snd (postIssue demoRuntime (Some 7) demoMined
     (mkIssueRequest (Composite (JArray [JString "Bob"; JString "Carol"])) (Str "Contest2025")
        (Uploaded (Some (mkFile "uploads/certificate-2.pdf" "certificate-2.pdf" "bob.pdf" 5)))
        "http" "localhost:3000")
     (mkWorld (run (chain (fst (postIssue demoRuntime (Some 7) demoMined demoRequest demoWorld)))
                   [])
              {[ "uploads/certificate-2.pdf" := "%PDF1" ]})))
   =? 200) = false /\
  postIssue demoRuntime (Some 7) demoMined
    (mkIssueRequest (Str "Bob") (Str "Contest2025")
                    (Uploaded (Some (mkFile "uploads/certificate-2.pdf" "certificate-2.pdf"
                                            "bob.pdf" 5)))
                    "http" "localhost:3000")
    (mkWorld (run (chain (fst (postIssue demoRuntime (Some 7) demoMined demoRequest demoWorld))) [])
             {[ "uploads/certificate-2.pdf" := "%PDF1" ]})
  = (mkWorld (run (chain (fst (postIssue demoRuntime (Some 7) demoMined demoRequest demoWorld))) [])
             (delete "uploads/certificate-2.pdf" {[ "uploads/certificate-2.pdf" := "%PDF1" ]}),
     mkResponse 500
       (JObject [("success", JBool false);
                 ("error", JString "Failed to issue certificate on blockchain");
                 ("message", JString "Certificate with this hash already exists")])).
Proof.
  split.
  - apply N.eqb_neq.
    destruct (post_issue_same_file_twice demoRuntime 7 demoMined demoMined demoRequest
                (mkIssueRequest (Composite (JArray [JString "Bob"; JString "Carol"]))
                   (Str "Contest2025")
                   (Uploaded (Some (mkFile "uploads/certificate-2.pdf" "certificate-2.pdf"
                                           "bob.pdf" 5)))
                   "http" "localhost:3000")
                demoWorld demoFile
                (mkFile "uploads/certificate-2.pdf" "certificate-2.pdf" "bob.pdf" 5)
                "%PDF1" [] {[ "uploads/certificate-2.pdf" := "%PDF1" ]})
      as [Hnever _];
      [ first [ apply reachable_deploy | reflexivity ] .. |].
    exact (proj1 (Hnever (Some 7))).
  - destruct (post_issue_same_file_twice demoRuntime 7 demoMined demoMined demoRequest
                (mkIssueRequest (Str "Bob") (Str "Contest2025")
                   (Uploaded (Some (mkFile "uploads/certificate-2.pdf" "certificate-2.pdf"
                                           "bob.pdf" 5)))
                   "http" "localhost:3000")
                demoWorld demoFile
                (mkFile "uploads/certificate-2.pdf" "certificate-2.pdf" "bob.pdf" 5)
                "%PDF1" [] {[ "uploads/certificate-2.pdf" := "%PDF1" ]})
      as [_ Hdup];
      [ first [ apply reachable_deploy | reflexivity ] .. |].
    apply (Hdup "Bob" "Contest2025"); first [ reflexivity | discriminate ].
Defined.

(** X15. A service whose wallet is not the contract owner cannot issue.
    No request to it is answered 200 and none changes the contract storage,
    whatever the request and whatever the network answers. A request that
    carries a participant and an event name that are non-empty strings and a
    readable file, and that the network does not refuse, is answered 500
    with the message "Only owner can call this function", and the uploaded
    file is removed from disk. *)
Theorem post_issue_wrong_wallet (rt : Runtime) (wallet : N) (net : Mined)
    (req : IssueRequest) (w : World) :
  wallet <> owner (chain w) ->
  (status (snd (postIssue rt (Some wallet) net req w)) <> 200 /\
   chain (fst (postIssue rt (Some wallet) net req w)) = chain w) /\
  (forall file fileBuffer p e,
     req_participantName req = Str p -> p <> "" ->
     req_eventName req = Str e -> e <> "" ->
     req_upload req = Uploaded (Some file) ->
     uploads w !! file_path file = Some fileBuffer ->
     refusal net = None ->
     postIssue rt (Some wallet) net req w
     = (mkWorld (chain w) (delete (file_path file) (uploads w)),
        mkResponse 500
          (JObject [("success", JBool false);
                    ("error", JString "Failed to issue certificate on blockchain");
                    ("message", JString "Only owner can call this function")]))).
Proof.
  intros Hno. split.
  - apply postIssue_not_issued. intros wallet' file buf [= <-] _ _. by left.
  - intros file fileBuffer p e Hpn Hp Hen He Hf Hu Hnet.
    assert (Hbody : issueCertificate (mkMsg wallet (block_time net)) p e
                      (generateFileHash rt fileBuffer) (chain w)
                    = Reverted (Error "Only owner can call this function") (chain w)).
    { by destruct (issueCertificate_outcome (mkMsg wallet (block_time net)) p e
                     (generateFileHash rt fileBuffer) (chain w)). }
    pose proof (service_issue_reverted rt wallet net p e _ _ _ _ Hnet Hbody) as Hsv.
    rewrite errorMessage_Error in Hsv by done.
    rewrite <- Hpn, <- Hen in Hsv.
    apply (postIssue_failed rt wallet net req w file fileBuffer
             "Only owner can call this function" (chain w)); try done.
    + rewrite Hpn. by apply truthy_Str.
    + rewrite Hen. by apply truthy_Str.
Qed.

Lemma post_issue_wrong_wallet_demo :
  postIssue demoRuntime (Some 8) demoMined demoRequest demoWorld
  = (mkWorld (constructor alice)
             (delete "uploads/certificate-1.pdf" (uploads demoWorld)),
     mkResponse 500
       (JObject [("success", JBool false);
                 ("error", JString "Failed to issue certificate on blockchain");
                 ("message", JString "Only owner can call this function")])).
Proof.
  destruct (post_issue_wrong_wallet demoRuntime 8 demoMined demoRequest demoWorld)
    as [_ Hrefused]; [discriminate |].
  apply (Hrefused demoFile "%PDF1" "Alice" "Contest2024");
    first [ reflexivity | discriminate ].
Defined.

(** ** Sessions *)




(** ** Failures reported by the issuing endpoint *)



